(** * BioLogreen Vue SDK: the capture coordinator and its API client

    A shallow embedding of [src/apiClient.ts] (the [post] helper and the two
    endpoint wrappers) and of [src/useBioLogreen.ts] (the composable that
    polls the face detector and fires one capture per armed request).

    The composable is asynchronous JavaScript run by a single-threaded event
    loop.  Every function is cut at its [await]s into segments that run to
    completion; a parked continuation is a [task]; the platform (timers, the
    detector, the camera, the network) and the caller are the [event]s that
    start a segment.  The state holds the closure's variables, the platform
    objects the closure points to, the promises handed to callers and the
    trace of calls made into the platform. *)

From Stdlib Require Import ZArith Lia Ascii String.
From stdpp Require Import list strings.

Local Open Scope string_scope.
Local Open Scope list_scope.
Set Warnings "-register-all".

(** ** JavaScript values *)

(** A JavaScript number (a double) as this code can observe it: the code
    never computes with numbers, it applies ToBoolean to one (false for
    zero) and ToString (the text JavaScript prints, say 42, 0.5 or 1e+21),
    and hands it on.  Every number [JSON.parse] produces is one such pair;
    the record also holds pairs that no double gives, so what is proved of
    every pair holds of every double. *)
Record number : Type := mkNumber {
  number_truthy : bool;
  number_to_string : string
}.

(** What [JSON.parse] can produce.  An object is the list of its own
    properties, in order, each key once. *)
Inductive json : Type :=
| JNull
| JBool (b : bool)
| JNum (n : number)
| JStr (s : string)
| JArr (items : list json)
| JObj (props : list (string * json)).

(** The value of [obj[key]] for an own property; [None] is [undefined]. *)
Fixpoint assoc (key : string) (props : list (string * json)) : option json :=
  match props with
  | [] => None
  | (k, v) :: rest => if String.eqb k key then Some v else assoc key rest
  end.

(** ToBoolean. *)
Definition truthy (v : json) : bool :=
  match v with
  | JNull => false
  | JBool b => b
  | JNum n => number_truthy n
  | JStr s => negb (String.eqb s "")
  | JArr _ | JObj _ => true
  end.

(** An [Error] object, as far as the code reads it. *)
Record js_error : Type := mkError { name : string; message : string }.

Definition Error (msg : string) : js_error := mkError "Error" msg.
Definition TypeError (msg : string) : js_error := mkError "TypeError" msg.

(** [Error.prototype.toString], which a template literal applies to [${e}]. *)
Definition error_to_string (e : js_error) : string :=
  if String.eqb (name e) "" then message e
  else if String.eqb (message e) "" then name e
  else name e +:+ ": " +:+ message e.

(** [s || fallback] on strings. *)
Definition or_else (s fallback : string) : string :=
  if String.eqb s "" then fallback else s.

(** How a promise (or an [await], or a call that may throw) ends. *)
Inductive outcome (A : Type) : Type :=
| Fulfilled (a : A)
| Rejected (e : js_error).
Arguments Fulfilled {A} a.
Arguments Rejected {A} e.

(** ToString.  An array joins the strings of its elements with commas,
    printing [null] elements as nothing.  An object is converted by its
    [toString]: a parsed object inherits the one that prints
    [[object Object]], unless it has an own property of that name, which is
    data and cannot be called; then the conversion throws (the text is
    V8's). *)
Fixpoint to_string (v : json) : outcome string :=
  match v with
  | JNull => Fulfilled "null"
  | JBool true => Fulfilled "true"
  | JBool false => Fulfilled "false"
  | JNum n => Fulfilled (number_to_string n)
  | JStr s => Fulfilled s
  | JArr items =>
      (fix join (l : list json) : outcome string :=
         match l with
         | [] => Fulfilled ""
         | x :: rest =>
             match
               match x with JNull => Fulfilled "" | _ => to_string x end
             with
             | Rejected e => Rejected e
             | Fulfilled piece =>
                 match rest with
                 | [] => Fulfilled piece
                 | _ :: _ =>
                     match join rest with
                     | Rejected e => Rejected e
                     | Fulfilled pieces =>
                         Fulfilled (piece +:+ "," +:+ pieces)
                     end
                 end
             end
         end) items
  | JObj props =>
      match assoc "toString" props with
      | Some _ => Rejected (TypeError "Cannot convert object to primitive value")
      | None => Fulfilled "[object Object]"
      end
  end.

(** [String.prototype.split(',')]. *)
Fixpoint split_comma (s : string) : list string :=
  match s with
  | EmptyString => [""]
  | String c rest =>
      if Ascii.eqb c ","%char then "" :: split_comma rest
      else match split_comma rest with
           | [] => [String c ""]
           | piece :: pieces => String c piece :: pieces
           end
  end.

(** ** apiClient.ts *)

Module ApiClient.

(** The argument of [fetch].  [body] is the payload that [JSON.stringify]
    serialises. *)
Record request : Type := mkRequest {
  url : string;
  method : string;
  headers : list (string * string);
  body : json
}.

(** A [Response]: its status line and what [response.json()] settles to. *)
Record response : Type := mkResponse {
  status : N;
  json_body : outcome json
}.

(** [response.ok]: the status is in the range 200-299. *)
Definition ok (r : response) : bool :=
  ((200 <=? status r) && (status r <=? 299))%N.

(** A FaceAuthResponse is the parsed body, cast and not inspected. *)
Abbreviation FaceAuthResponse := json (only parsing).

(** [post], up to its first [await]: the call to [fetch]. *)
Definition post_fetch (endpoint : string) (payload : list (string * json))
    (apiKey baseURL : string) : request :=
  {| url := baseURL +:+ endpoint;
     method := "POST";
     headers := [("Content-Type", "application/json"); ("X-API-KEY", apiKey)];
     body := JObj payload |}.

(** [responseData.detail]: reading a property of [null] throws (the text is
    V8's), any other value without the property gives [undefined]. *)
Definition get_detail (responseData : json) : outcome (option json) :=
  match responseData with
  | JNull => Rejected (TypeError "Cannot read properties of null (reading 'detail')")
  | JObj props => Fulfilled (assoc "detail" props)
  | _ => Fulfilled None
  end.

Definition unknown_api_error : string := "An unknown API error occurred.".

(** [post], from the reply of [fetch] on: what the returned promise settles
    to.  A network failure rejects [fetch]; a body that is not JSON rejects
    [response.json()]. *)
Definition post_then (reply : outcome response) : outcome FaceAuthResponse :=
  match reply with
  | Rejected e => Rejected e
  | Fulfilled resp =>
      match json_body resp with
      | Rejected e => Rejected e
      | Fulfilled responseData =>
          if negb (ok resp) then
            match get_detail responseData with
            | Rejected e => Rejected e
            | Fulfilled detail =>
                let errorMessage :=
                  match detail with
                  | Some d => if truthy d then d else JStr unknown_api_error
                  | None => JStr unknown_api_error
                  end in
                match to_string errorMessage with
                | Rejected e => Rejected e
                | Fulfilled msg => Rejected (Error msg)
                end
            end
          else Fulfilled responseData
      end
  end.

Definition signupWithFaceApi (apiKey baseURL imageBase64 : string)
    (customFields : option (list (string * json))) : request :=
  let payload := [("image_base64", JStr imageBase64)] in
  let payload :=
    match customFields with
    | Some fields => payload ++ [("custom_fields", JObj fields)]
    | None => payload
    end in
  post_fetch "/auth/signup-face" payload apiKey baseURL.

Definition loginWithFaceApi (apiKey baseURL imageBase64 : string) : request :=
  let payload := [("image_base64", JStr imageBase64)] in
  post_fetch "/auth/login-face" payload apiKey baseURL.

End ApiClient.

(** ** useBioLogreen.ts: the state *)

(** [UseBioLogreenOptions] without [videoRef], which is a mutable cell and
    lives in the state. *)
Module Options.
Record t : Type := mk {
  apiKey : string;
  baseURL : option string;
  modelPath : option string
}.
End Options.

Inductive mode : Type := login | signup.

(** The video element, as far as the code touches it: the stream it shows. *)
Record video : Type := mkVideo { srcObject : option nat }.

(** A continuation parked at an [await]. *)
Inductive task : Type :=
| AwaitModels                    (* start, inside loadModels *)
| AwaitUserMedia                 (* start, at getUserMedia *)
| AwaitDetect                    (* runDetection, at detectAllFaces *)
| AwaitSend (completer : nat).   (* _capturePhoto, at the call of the API *)

(** Calls the coordinator makes, in program order: into the platform, and
    the one internal call whose firing the poll decides. *)
Inductive action : Type :=
| LoadFromUri (uri : string)
| GetUserMedia
| SetInterval (id : positive)
| ClearInterval (id : positive)
| StopTracks (stream : nat)
| DetectAllFaces
| CapturePhoto
| Fetch (r : ApiClient.request).

(** A promise is pending ([None]) or settled; its id is its index. *)
Abbreviation promise := (option (outcome ApiClient.FaceAuthResponse)) (only parsing).

Record state : Type := mkState {
  (* reactive state *)
  isLoading : bool;
  isInitializing : bool;
  faceDetected : bool;
  error : option string;
  (* internal state; a CaptureCompleter is the promise it settles, and a
     timer handle is a positive integer, hence always truthy *)
  stream : option nat;
  detectionInterval : option positive;
  captureCompleter : option nat;
  captureMode : mode;
  signupCustomFields : option (list (string * json));
  (* options.videoRef.value *)
  videoRef : option video;
  (* the platform: running interval timers and the next handle, streams
     whose tracks are live, promises, parked continuations, calls made *)
  timers : list positive;
  nextTimer : positive;
  liveStreams : list nat;
  promises : list promise;
  tasks : list task;
  trace : list action
}.

Definition set_isLoading (v : bool) (s : state) : state :=
  mkState v (isInitializing s) (faceDetected s) (error s) (stream s)
    (detectionInterval s) (captureCompleter s) (captureMode s)
    (signupCustomFields s) (videoRef s) (timers s) (nextTimer s)
    (liveStreams s) (promises s) (tasks s) (trace s).

Definition set_isInitializing (v : bool) (s : state) : state :=
  mkState (isLoading s) v (faceDetected s) (error s) (stream s)
    (detectionInterval s) (captureCompleter s) (captureMode s)
    (signupCustomFields s) (videoRef s) (timers s) (nextTimer s)
    (liveStreams s) (promises s) (tasks s) (trace s).

Definition set_faceDetected (v : bool) (s : state) : state :=
  mkState (isLoading s) (isInitializing s) v (error s) (stream s)
    (detectionInterval s) (captureCompleter s) (captureMode s)
    (signupCustomFields s) (videoRef s) (timers s) (nextTimer s)
    (liveStreams s) (promises s) (tasks s) (trace s).

Definition set_error (v : option string) (s : state) : state :=
  mkState (isLoading s) (isInitializing s) (faceDetected s) v (stream s)
    (detectionInterval s) (captureCompleter s) (captureMode s)
    (signupCustomFields s) (videoRef s) (timers s) (nextTimer s)
    (liveStreams s) (promises s) (tasks s) (trace s).

Definition set_stream (v : option nat) (s : state) : state :=
  mkState (isLoading s) (isInitializing s) (faceDetected s) (error s) v
    (detectionInterval s) (captureCompleter s) (captureMode s)
    (signupCustomFields s) (videoRef s) (timers s) (nextTimer s)
    (liveStreams s) (promises s) (tasks s) (trace s).

Definition set_detectionInterval (v : option positive) (s : state) : state :=
  mkState (isLoading s) (isInitializing s) (faceDetected s) (error s) (stream s)
    v (captureCompleter s) (captureMode s)
    (signupCustomFields s) (videoRef s) (timers s) (nextTimer s)
    (liveStreams s) (promises s) (tasks s) (trace s).

Definition set_captureCompleter (v : option nat) (s : state) : state :=
  mkState (isLoading s) (isInitializing s) (faceDetected s) (error s) (stream s)
    (detectionInterval s) v (captureMode s)
    (signupCustomFields s) (videoRef s) (timers s) (nextTimer s)
    (liveStreams s) (promises s) (tasks s) (trace s).

Definition set_captureMode (v : mode) (s : state) : state :=
  mkState (isLoading s) (isInitializing s) (faceDetected s) (error s) (stream s)
    (detectionInterval s) (captureCompleter s) v
    (signupCustomFields s) (videoRef s) (timers s) (nextTimer s)
    (liveStreams s) (promises s) (tasks s) (trace s).

Definition set_signupCustomFields (v : option (list (string * json)))
    (s : state) : state :=
  mkState (isLoading s) (isInitializing s) (faceDetected s) (error s) (stream s)
    (detectionInterval s) (captureCompleter s) (captureMode s)
    v (videoRef s) (timers s) (nextTimer s)
    (liveStreams s) (promises s) (tasks s) (trace s).

Definition set_videoRef (v : option video) (s : state) : state :=
  mkState (isLoading s) (isInitializing s) (faceDetected s) (error s) (stream s)
    (detectionInterval s) (captureCompleter s) (captureMode s)
    (signupCustomFields s) v (timers s) (nextTimer s)
    (liveStreams s) (promises s) (tasks s) (trace s).

Definition set_timers (v : list positive) (next : positive) (s : state) : state :=
  mkState (isLoading s) (isInitializing s) (faceDetected s) (error s) (stream s)
    (detectionInterval s) (captureCompleter s) (captureMode s)
    (signupCustomFields s) (videoRef s) v next
    (liveStreams s) (promises s) (tasks s) (trace s).

Definition set_liveStreams (v : list nat) (s : state) : state :=
  mkState (isLoading s) (isInitializing s) (faceDetected s) (error s) (stream s)
    (detectionInterval s) (captureCompleter s) (captureMode s)
    (signupCustomFields s) (videoRef s) (timers s) (nextTimer s)
    v (promises s) (tasks s) (trace s).

Definition set_promises (v : list promise) (s : state) : state :=
  mkState (isLoading s) (isInitializing s) (faceDetected s) (error s) (stream s)
    (detectionInterval s) (captureCompleter s) (captureMode s)
    (signupCustomFields s) (videoRef s) (timers s) (nextTimer s)
    (liveStreams s) v (tasks s) (trace s).

Definition set_tasks (v : list task) (s : state) : state :=
  mkState (isLoading s) (isInitializing s) (faceDetected s) (error s) (stream s)
    (detectionInterval s) (captureCompleter s) (captureMode s)
    (signupCustomFields s) (videoRef s) (timers s) (nextTimer s)
    (liveStreams s) (promises s) v (trace s).

(** Record a call, after the ones made so far. *)
Definition log (a : action) (s : state) : state :=
  mkState (isLoading s) (isInitializing s) (faceDetected s) (error s) (stream s)
    (detectionInterval s) (captureCompleter s) (captureMode s)
    (signupCustomFields s) (videoRef s) (timers s) (nextTimer s)
    (liveStreams s) (promises s) (tasks s) (trace s ++ [a]).

(** ** The platform *)

(** [new Promise(executor)]: a fresh pending promise. *)
Definition new_promise (s : state) : nat * state :=
  (length (promises s), set_promises (promises s ++ [None]) s).

(** [resolve] and [reject] of a promise: the first call settles it, later
    calls do nothing. *)
Definition settle (p : nat) (o : outcome ApiClient.FaceAuthResponse)
    (s : state) : state :=
  match promises s !! p with
  | Some None => set_promises (<[p := Some o]> (promises s)) s
  | _ => s
  end.

(** [window.setInterval(handler, 200)]: a new running timer and its handle. *)
Definition setInterval (s : state) : positive * state :=
  let id := nextTimer s in
  (id, log (SetInterval id) (set_timers (id :: timers s) (Pos.succ id) s)).

(** [clearInterval(id)]. *)
Definition clearInterval (id : positive) (s : state) : state :=
  log (ClearInterval id)
    (set_timers (filter (fun t => t ≠ id) (timers s)) (nextTimer s) s).

(** [stream.getTracks().forEach(track => track.stop())]. *)
Definition stopTracks (strm : nat) (s : state) : state :=
  log (StopTracks strm)
    (set_liveStreams (filter (fun t => t ≠ strm) (liveStreams s)) s).

(** How a segment of an async function ends: it returns (its promise
    fulfils), throws (its promise rejects), or parks at an [await]. *)
Inductive completion : Type :=
| Returned
| Threw (e : js_error)
| Parked (t : task).

(** The event loop keeps a parked continuation; a promise nobody awaits is
    dropped, whatever it settles to. *)
Definition spawn (r : completion * state) : state :=
  match r with
  | (Parked t, s) => set_tasks (tasks s ++ [t]) s
  | (_, s) => s
  end.

(** A segment of [try { body } catch (e) { handler } finally { final }]:
    a body parked at an [await] resumes later inside the same statement. *)
Definition try_catch_finally (body : state -> completion * state)
    (handler : js_error -> state -> completion * state)
    (final : state -> state) (s : state) : completion * state :=
  match body s with
  | (Parked t, s) => (Parked t, s)
  | (Returned, s) => (Returned, final s)
  | (Threw e, s) => let (c, s) := handler e s in (c, final s)
  end.

(** ** useBioLogreen.ts: the composable *)

Section useBioLogreen.

Variable options : Options.t.

Definition baseURL : string :=
  default "https://api.biologreen.com/v1" (Options.baseURL options).

Definition modelPath : string :=
  default "https://cdn.jsdelivr.net/npm/@vladmandic/face-api/model/"
    (Options.modelPath options).

(** [loadModels], up to its [await]. *)
Definition loadModels (s : state) : completion * state :=
  (Parked AwaitModels, log (LoadFromUri modelPath) s).

(** [loadModels], once [loadFromUri] has settled: the [catch] rethrows. *)
Definition loadModels_resume (loaded : outcome unit) (s : state)
    : completion * state :=
  match loaded with
  | Fulfilled _ => (Returned, s)
  | Rejected e =>
      (Threw (Error ("Failed to load face detection models. Please check the modelPath. Error: "
                     +:+ error_to_string e)), s)
  end.

Definition capture_failed : string :=
  "Failed to capture image from video stream.".

Definition unexpected_capture_error : string :=
  "An unexpected error occurred during capture.".

(** Lines 76-85 of [_capturePhoto].  [frame] is what drawing the video on a
    canvas and [toDataURL] give: the data URL, or the exception of a canvas
    call.  The image is the piece after the first comma. *)
Definition encode_frame (frame : outcome string) : outcome string :=
  match frame with
  | Rejected e => Rejected e
  | Fulfilled dataURL =>
      match split_comma dataURL !! 1%nat with
      | Some imageBase64 =>
          if String.eqb imageBase64 "" then Rejected (Error capture_failed)
          else Fulfilled imageBase64
      | None => Rejected (Error capture_failed)
      end
  end.

Definition _capturePhoto_catch (completer : nat) (e : js_error) (s : state)
    : completion * state :=
  let s := set_error (Some (or_else (message e) unexpected_capture_error)) s in
  (Returned, settle completer (Rejected e) s).

Definition _capturePhoto_finally (s : state) : state :=
  set_isLoading false s.

(** [_capturePhoto], up to its [await]. *)
Definition _capturePhoto (frame : outcome string) (s : state)
    : completion * state :=
  match videoRef s, captureCompleter s with
  | Some _, Some completer =>
      let s := set_isLoading true s in
      let s := set_captureCompleter None s in
      try_catch_finally
        (fun s =>
           match encode_frame frame with
           | Rejected e => (Threw e, s)
           | Fulfilled imageBase64 =>
               let request :=
                 match captureMode s with
                 | login =>
                     ApiClient.loginWithFaceApi (Options.apiKey options)
                       baseURL imageBase64
                 | signup =>
                     ApiClient.signupWithFaceApi (Options.apiKey options)
                       baseURL imageBase64 (signupCustomFields s)
                 end in
               (Parked (AwaitSend completer), log (Fetch request) s)
           end)
        (_capturePhoto_catch completer) _capturePhoto_finally s
  | _, _ => (Returned, s)
  end.

(** [_capturePhoto], once [fetch] has replied. *)
Definition _capturePhoto_resume (completer : nat)
    (reply : outcome ApiClient.response) (s : state) : completion * state :=
  try_catch_finally
    (fun s =>
       match ApiClient.post_then reply with
       | Rejected e => (Threw e, s)
       | Fulfilled response =>
           (Returned, settle completer (Fulfilled response) s)
       end)
    (_capturePhoto_catch completer) _capturePhoto_finally s.

(** [runDetection], up to its [await]. *)
Definition runDetection (s : state) : completion * state :=
  match videoRef s with
  | None => (Returned, s)
  | Some _ => (Parked AwaitDetect, log DetectAllFaces s)
  end.

(** [runDetection], once the detector has replied with [detections.length].
    The call of [_capturePhoto] is not awaited. *)
Definition runDetection_resume (detections : outcome nat)
    (frame : outcome string) (s : state) : completion * state :=
  match detections with
  | Rejected e => (Threw e, s)
  | Fulfilled n =>
      let faceIsPresent := (0 <? n)%nat in
      let s := set_faceDetected faceIsPresent s in
      if bool_decide (is_Some (captureCompleter s)) && faceIsPresent
         && negb (isLoading s)
      then (Returned, spawn (_capturePhoto frame (log CapturePhoto s)))
      else (Returned, s)
  end.

Definition start_catch (e : js_error) (s : state) : completion * state :=
  (Returned, set_error (Some ("Failed to start camera: " +:+ message e)) s).

Definition start_finally (s : state) : state :=
  set_isInitializing false s.

(** [start], up to its first [await]. *)
Definition start (s : state) : completion * state :=
  match videoRef s with
  | None =>
      (Returned,
       set_error (Some "Video element reference is not available.") s)
  | Some _ =>
      let s := set_isInitializing true s in
      let s := set_error None s in
      try_catch_finally loadModels start_catch start_finally s
  end.

(** [start], once the models have settled, up to its second [await]. *)
Definition start_models (loaded : outcome unit) (s : state)
    : completion * state :=
  try_catch_finally
    (fun s =>
       match loadModels_resume loaded s with
       | (Returned, s) => (Parked AwaitUserMedia, log GetUserMedia s)
       | r => r
       end)
    start_catch start_finally s.

(** [start], once [getUserMedia] has settled.  Assigning [srcObject] on a
    [null] element throws (the text is V8's). *)
Definition start_media (media : outcome nat) (s : state)
    : completion * state :=
  try_catch_finally
    (fun s =>
       match media with
       | Rejected e => (Threw e, s)
       | Fulfilled strm =>
           let s := set_stream (Some strm) s in
           match videoRef s with
           | None =>
               (Threw (TypeError "Cannot set properties of null (setting 'srcObject')"), s)
           | Some _ =>
               let s := set_videoRef (Some (mkVideo (Some strm))) s in
               let (id, s) := setInterval s in
               (Returned, set_detectionInterval (Some id) s)
           end
       end)
    start_catch start_finally s.

Definition stop (s : state) : state :=
  let s :=
    match detectionInterval s with
    | Some id => set_detectionInterval None (clearInterval id s)
    | None => s
    end in
  let s :=
    match stream s with
    | Some strm => set_stream None (stopTracks strm s)
    | None => s
    end in
  let s :=
    match videoRef s with
    | Some _ => set_videoRef (Some (mkVideo None)) s
    | None => s
    end in
  set_faceDetected false s.

(** The promise executor runs inside [new Promise], so the completer is
    stored before the function returns the promise. *)
Definition loginWithFace (s : state) : nat * state :=
  let s := set_captureMode login s in
  let s := set_signupCustomFields None s in
  let (p, s) := new_promise s in
  (p, set_captureCompleter (Some p) s).

(** [opts] is the optional argument and [customFields] its optional
    property. *)
Definition signupWithFace (opts : option (option (list (string * json))))
    (s : state) : nat * state :=
  let s := set_captureMode signup s in
  let s :=
    set_signupCustomFields
      (match opts with Some customFields => customFields | None => None end)
      s in
  let (p, s) := new_promise s in
  (p, set_captureCompleter (Some p) s).

(** ** The event loop *)

(** What the platform hands to a parked continuation. *)
Inductive reply : Type :=
| ModelsReply (loaded : outcome unit)
| MediaReply (media : outcome nat)
| DetectReply (detections : outcome nat) (frame : outcome string)
| FetchReply (response : outcome ApiClient.response).

Inductive event : Type :=
| EvStart
| EvStop
| EvLogin
| EvSignup (opts : option (option (list (string * json))))
| EvSetVideoRef (v : option video)   (* the element is mounted or unmounted *)
| EvTick (id : positive)             (* a running interval timer fires *)
| EvResume (i : nat) (r : reply).    (* the promise task [i] awaits settles *)

(** One turn of the event loop; [None] when the event cannot happen. *)
Definition step (e : event) (s : state) : option state :=
  match e with
  | EvStart => Some (spawn (start s))
  | EvStop => Some (stop s)
  | EvLogin => Some (snd (loginWithFace s))
  | EvSignup opts => Some (snd (signupWithFace opts s))
  | EvSetVideoRef v => Some (set_videoRef v s)
  | EvTick id =>
      if bool_decide (id ∈ timers s) then Some (spawn (runDetection s))
      else None
  | EvResume i r =>
      match tasks s !! i with
      | None => None
      | Some t =>
          let s := set_tasks (delete i (tasks s)) s in
          match t, r with
          | AwaitModels, ModelsReply loaded =>
              Some (spawn (start_models loaded s))
          | AwaitUserMedia, MediaReply media =>
              let s :=
                match media with
                | Fulfilled strm => set_liveStreams (strm :: liveStreams s) s
                | Rejected _ => s
                end in
              Some (spawn (start_media media s))
          | AwaitDetect, DetectReply detections frame =>
              Some (spawn (runDetection_resume detections frame s))
          | AwaitSend completer, FetchReply response =>
              Some (spawn (_capturePhoto_resume completer response s))
          | _, _ => None
          end
      end
  end.

Fixpoint run (events : list event) (s : state) : option state :=
  match events with
  | [] => Some s
  | e :: rest =>
      match step e s with
      | Some s' => run rest s'
      | None => None
      end
  end.

(** The state [useBioLogreen(options)] starts from, given the element the
    ref holds. *)
Definition init (v : option video) : state :=
  {| isLoading := false; isInitializing := false; faceDetected := false;
     error := None; stream := None; detectionInterval := None;
     captureCompleter := None; captureMode := login;
     signupCustomFields := None; videoRef := v; timers := []; nextTimer := 1;
     liveStreams := []; promises := []; tasks := []; trace := [] |}.

Definition reachable (s : state) : Prop :=
  exists v events, run events (init v) = Some s.

(** ** Notions the properties are stated with *)

(** The completers of the capture-and-sends in flight. *)
Fixpoint sends (l : list task) : list nat :=
  match l with
  | [] => []
  | AwaitSend completer :: rest => completer :: sends rest
  | _ :: rest => sends rest
  end.

(** The calls made between state [s] and a later state [s']. *)
Definition calls_since (s s' : state) : list action :=
  drop (length (trace s)) (trace s').

(** A capture request as the caller states it. *)
Inductive capture_request : Type :=
| LoginRequest
| SignupRequest (opts : option (option (list (string * json)))).

Definition arm (r : capture_request) (s : state) : nat * state :=
  match r with
  | LoginRequest => loginWithFace s
  | SignupRequest opts => signupWithFace opts s
  end.

Definition EvArm (r : capture_request) : event :=
  match r with
  | LoginRequest => EvLogin
  | SignupRequest opts => EvSignup opts
  end.

Definition is_arming (e : event) : Prop :=
  match e with
  | EvLogin | EvSignup _ => True
  | _ => False
  end.

Definition request_mode (r : capture_request) : mode :=
  match r with
  | LoginRequest => login
  | SignupRequest _ => signup
  end.

(** The custom fields provided with a request, if any. *)
Definition request_fields (r : capture_request)
    : option (list (string * json)) :=
  match r with
  | SignupRequest (Some (Some fields)) => Some fields
  | _ => None
  end.

(** The send the interface describes for a request and an encoded image:
    a POST to the endpoint of the mode under the base URL, with the API key
    header and the image, plus the custom fields when some were given. *)
Definition described_send (r : capture_request) (imageBase64 : string)
    : ApiClient.request :=
  {| ApiClient.url :=
       baseURL +:+
       match request_mode r with
       | login => "/auth/login-face"
       | signup => "/auth/signup-face"
       end;
     ApiClient.method := "POST";
     ApiClient.headers :=
       [("Content-Type", "application/json");
        ("X-API-KEY", Options.apiKey options)];
     ApiClient.body :=
       JObj (("image_base64", JStr imageBase64) ::
             match request_fields r with
             | Some fields => [("custom_fields", JObj fields)]
             | None => []
             end) |}.

(** The coordinator's bookkeeping is consistent: the busy flag is set
    exactly while one send is in flight, and the armed completer and the
    completers in flight are distinct pending promises. *)
Record wf (s : state) : Prop := mkWf {
  wf_busy : length (sends (tasks s)) = Nat.b2n (isLoading s);
  wf_armed : forall p, captureCompleter s = Some p -> promises s !! p = Some None;
  wf_sends : forall p, p ∈ sends (tasks s) ->
             promises s !! p = Some None /\ captureCompleter s <> Some p
}.

(** Nothing holds promise [p]: it is pending, not armed and not in flight. *)
Definition abandoned (p : nat) (s : state) : Prop :=
  promises s !! p = Some None /\ captureCompleter s <> Some p
  /\ p ∉ sends (tasks s).

(** Events that are no part of an execution of [start]. *)
Definition outside_start (e : event) (s : state) : Prop :=
  match e with
  | EvStart => False
  | EvResume i _ =>
      tasks s !! i <> Some AwaitModels /\ tasks s !! i <> Some AwaitUserMedia
  | _ => True
  end.

(** [responseData.detail] for a parsed body that is not [null]. *)
Definition detail_of (responseData : json) : option json :=
  match responseData with
  | JObj props => assoc "detail" props
  | _ => None
  end.

(** The error [post] throws for a non-2xx reply whose body parsed to
    [responseData], not [null]: an [Error] with the detail as its message
    when the detail is there and truthy, as [new Error] converts it, and
    with the generic message otherwise. *)
Definition api_error (responseData : json) : js_error :=
  match detail_of responseData with
  | Some detail =>
      if truthy detail then
        match to_string detail with
        | Fulfilled msg => Error msg
        | Rejected e => e
        end
      else Error ApiClient.unknown_api_error
  | None => Error ApiClient.unknown_api_error
  end.

(** A completed detection qualifies for a capture: a request is armed, a
    face is present and the busy flag is down. *)
Definition qualifies (n : nat) (s : state) : Prop :=
  is_Some (captureCompleter s) /\ (0 < n)%nat /\ isLoading s = false.

(** The state once [_capturePhoto] has been called from a detection that
    saw a face, has passed its guard and has disarmed the request. *)
Definition capture_begun (s : state) : state :=
  set_captureCompleter None
    (set_isLoading true (log CapturePhoto (set_faceDetected true s))).

(** The call of the API client that [_capturePhoto] makes in state [s]. *)
Definition request_sent (imageBase64 : string) (s : state)
    : ApiClient.request :=
  match captureMode s with
  | login =>
      ApiClient.loginWithFaceApi (Options.apiKey options) baseURL imageBase64
  | signup =>
      ApiClient.signupWithFaceApi (Options.apiKey options) baseURL imageBase64
        (signupCustomFields s)
  end.

(** The coordinator is ready for a new capture: whichever request is armed
    now, the next detection that sees a face, with the video element there
    and an encodable frame, sends it and raises the busy flag. *)
Definition ready (s : state) : Prop :=
  forall r i n frame imageBase64,
    tasks s !! i = Some AwaitDetect -> is_Some (videoRef s) ->
    (0 < n)%nat -> encode_frame frame = Fulfilled imageBase64 ->
    exists s',
      run [EvArm r; EvResume i (DetectReply (Fulfilled n) frame)] s = Some s'
      /\ calls_since s s' =
         [CapturePhoto; Fetch (described_send r imageBase64)]
      /\ isLoading s' = true
      /\ sends (tasks s') = [fst (arm r s)].

(** The executions of [start] that are waiting, on the model load or on the
    camera. *)
Fixpoint setups (l : list task) : nat :=
  match l with
  | [] => 0
  | AwaitModels :: rest | AwaitUserMedia :: rest => S (setups rest)
  | _ :: rest => setups rest
  end.

(** [start] is not called while an earlier call is still setting up. *)
Fixpoint one_start_at_a_time (events : list event) (s : state) : Prop :=
  match events with
  | [] => True
  | e :: rest =>
      (e = EvStart -> setups (tasks s) = 0%nat)
      /\ match step e s with
         | Some s' => one_start_at_a_time rest s'
         | None => True
         end
  end.

(** The event grants the camera to a waiting [start]. *)
Definition camera_granted (e : event) : Prop :=
  match e with
  | EvResume _ (MediaReply (Fulfilled _)) => True
  | _ => False
  end.

(** The text has no comma. *)
Fixpoint no_comma (s : string) : bool :=
  match s with
  | EmptyString => true
  | String c rest => negb (Ascii.eqb c ","%char) && no_comma rest
  end.

(** ** Concrete inputs *)

Definition demo_options : Options.t :=
  Options.mk "pk_demo" (Some "http://localhost:8000/v1") None.

Definition demo_video : option video := Some (mkVideo None).

Definition demo_frame : outcome string :=
  Fulfilled "data:image/jpeg;base64,/9j/4AAQSkZJRg==".

(** A successful [start()]: models loaded, camera granted, timer 1 set. *)
Definition demo_started : list event :=
  [EvStart; EvResume 0 (ModelsReply (Fulfilled tt));
   EvResume 0 (MediaReply (Fulfilled 7%nat))].

(** A login is armed, a tick sees a face and sends the frame, and the
    next tick has fired: one send and one detection are pending. *)
Definition demo_in_flight : list event :=
  demo_started ++
  [EvLogin; EvTick 1; EvResume 0 (DetectReply (Fulfilled 1%nat) demo_frame);
   EvTick 1].

(** What [response.json()] rejects with on a body that is an HTML page. *)
Definition demo_syntax_error : js_error :=
  mkError "SyntaxError" "Unexpected token < in JSON at position 0".

(** The reply of the spec's signup example. *)
Definition demo_user : json :=
  JObj [("user_id", JNum (mkNumber true "42")); ("is_new_user", JBool true)].

(** A login is armed; a tick sees no face; the next tick has fired when
    [stop] is called: the request is still armed and a detection is
    pending. *)
Definition demo_armed : list event :=
  demo_started ++
  [EvLogin; EvTick 1; EvResume 0 (DetectReply (Fulfilled 0%nat) demo_frame);
   EvTick 1; EvStop].

(** A second successful [start()]: timer 2 is set for stream 8. *)
Definition demo_started_again : list event :=
  [EvStart; EvResume 0 (ModelsReply (Fulfilled tt));
   EvResume 0 (MediaReply (Fulfilled 8%nat))].

(** A tick has seen a face, then the video element was unmounted with the
    timer running, then a login was armed. *)
Definition demo_unmounted : list event :=
  demo_started ++
  [EvTick 1; EvResume 0 (DetectReply (Fulfilled 1%nat) demo_frame);
   EvSetVideoRef None; EvLogin].

(** What the browser rejects [getUserMedia] with when the user says no. *)
Definition demo_not_allowed : js_error :=
  mkError "NotAllowedError" "Permission denied".

(** The login send for the demo frame. *)
Definition demo_login_send : ApiClient.request :=
  {| ApiClient.url := "http://localhost:8000/v1/auth/login-face";
     ApiClient.method := "POST";
     ApiClient.headers :=
       [("Content-Type", "application/json"); ("X-API-KEY", "pk_demo")];
     ApiClient.body := JObj [("image_base64", JStr "/9j/4AAQSkZJRg==")] |}.

(** ** Auxiliary facts *)

(** Induction on a parsed value that reaches the elements of arrays. *)
Lemma json_ind_deep (P : json -> Prop) :
  P JNull -> (forall b, P (JBool b)) -> (forall n, P (JNum n)) ->
  (forall s, P (JStr s)) ->
  (forall items, Forall P items -> P (JArr items)) ->
  (forall props, P (JObj props)) ->
  forall v, P v.
Proof.
  intros Hnull Hbool Hnum Hstr Harr Hobj.
  fix IH 1. intros [|b|n|s|items|props].
  - exact Hnull.
  - apply Hbool.
  - apply Hnum.
  - apply Hstr.
  - apply Harr. induction items as [|x rest IHrest]; constructor.
    + apply IH.
    + exact IHrest.
  - apply Hobj.
Qed.

Lemma sends_app (l1 l2 : list task) : sends (l1 ++ l2) = sends l1 ++ sends l2.
Proof.
  induction l1 as [|[] l1 IH]; simpl; auto. now rewrite IH.
Qed.

Lemma sends_delete_other (l : list task) i t :
  l !! i = Some t -> (forall c, t <> AwaitSend c) -> sends (delete i l) = sends l.
Proof.
  revert i. induction l as [|a l IH]; intros [|i] H Hn; simpl in *; try discriminate.
  - injection H as ->. destruct t; auto. now destruct (Hn completer).
  - rewrite (IH i H Hn). reflexivity.
Qed.

Lemma sends_delete_send (l : list task) i c :
  l !! i = Some (AwaitSend c) ->
  exists a b, sends l = a ++ c :: b /\ sends (delete i l) = a ++ b.
Proof.
  revert i. induction l as [|t l IH]; intros [|i] H; simpl in *; try discriminate.
  - injection H as ->. now exists [], (sends l).
  - destruct (IH i H) as (a & b & E1 & E2).
    destruct t; simpl; rewrite ?E1, ?E2; try (now exists a, b).
    now exists (completer :: a), b.
Qed.

Lemma run_invariant (E : event -> Prop) (I : state -> Prop) :
  (forall e s s', E e -> I s -> step e s = Some s' -> I s') ->
  forall events s s', Forall E events -> I s -> run events s = Some s' -> I s'.
Proof.
  intros Hstep events. induction events as [|e events IH]; simpl; intros s s' HE HI Hrun.
  - now injection Hrun as <-.
  - inversion HE as [|? ? He Hes]; subst. destruct (step e s) as [s1|] eqn:H1; [|discriminate].
    eauto.
Qed.

Lemma wf_same s s' :
  isLoading s' = isLoading s -> captureCompleter s' = captureCompleter s ->
  promises s' = promises s -> sends (tasks s') = sends (tasks s) ->
  wf s -> wf s'.
Proof.
  intros E1 E2 E3 E4 [Hb Ha Hs]. split; rewrite ?E1, ?E2, ?E3, ?E4; auto.
Qed.

Ltac unfold_segments :=
  unfold start, start_models, start_media, stop, runDetection,
    try_catch_finally, loadModels_resume, loadModels, start_catch, start_finally,
    setInterval, clearInterval, stopTracks, spawn in *.

Ltac neutral :=
  unfold_segments; simpl; repeat case_match; simpl in *; simplify_eq;
  simpl; rewrite ?sends_app, ?app_nil_r; auto.

Lemma arm_eq r s :
  arm r s =
  (length (promises s),
   set_captureCompleter (Some (length (promises s)))
     (set_promises (promises s ++ [None])
        (set_signupCustomFields (request_fields r)
           (set_captureMode (request_mode r) s)))).
Proof. destruct r as [|[[?|]|]]; reflexivity. Qed.

Lemma step_arm r s : step (EvArm r) s = Some (snd (arm r s)).
Proof. destruct r; reflexivity. Qed.

Lemma wf_arm r s : wf s -> wf (snd (arm r s)).
Proof.
  intros [Hb Ha Hs]. rewrite arm_eq. split; simpl.
  - exact Hb.
  - intros p [= <-]. apply list_lookup_middle. reflexivity.
  - intros p Hp. destruct (Hs p Hp) as [Hpend _].
    pose proof (lookup_lt_Some _ _ _ Hpend) as Hlt. split.
    + rewrite lookup_app_l; auto.
    + intros [= E]. lia.
Qed.

Lemma tick_idle n frame s :
  ~ qualifies n s ->
  runDetection_resume (Fulfilled n) frame s =
  (Returned, set_faceDetected (0 <? n)%nat s).
Proof.
  intros Hq. unfold runDetection_resume. simpl.
  destruct (captureCompleter s) as [p|] eqn:Ep; simpl; auto.
  destruct (0 <? n)%nat eqn:En; simpl; auto.
  destruct (isLoading s) eqn:El; simpl; auto.
  destruct Hq. repeat split; eauto. now apply Nat.ltb_lt.
Qed.

Lemma tick_sends n frame s p imageBase64 :
  captureCompleter s = Some p -> (0 < n)%nat -> isLoading s = false ->
  is_Some (videoRef s) -> encode_frame frame = Fulfilled imageBase64 ->
  runDetection_resume (Fulfilled n) frame s =
  (Returned,
   set_tasks (tasks s ++ [AwaitSend p])
     (log (Fetch (request_sent imageBase64 s)) (capture_begun s))).
Proof.
  intros Ep Hn El [v Ev] Ef. unfold runDetection_resume, _capturePhoto, try_catch_finally.
  simpl. rewrite Ep, El, Ev, Ef. apply Nat.ltb_lt in Hn. rewrite Hn. simpl.
  reflexivity.
Qed.

Lemma tick_encoding_fails n frame s p e :
  captureCompleter s = Some p -> (0 < n)%nat -> isLoading s = false ->
  is_Some (videoRef s) -> encode_frame frame = Rejected e ->
  runDetection_resume (Fulfilled n) frame s =
  (Returned,
   set_isLoading false
     (settle p (Rejected e)
        (set_error (Some (or_else (message e) unexpected_capture_error))
           (capture_begun s)))).
Proof.
  intros Ep Hn El [v Ev] Ef. unfold runDetection_resume, _capturePhoto, try_catch_finally.
  simpl. rewrite Ep, El, Ev, Ef. apply Nat.ltb_lt in Hn. rewrite Hn. simpl.
  reflexivity.
Qed.

Lemma tick_no_video n frame s :
  qualifies n s -> videoRef s = None ->
  runDetection_resume (Fulfilled n) frame s =
  (Returned, log CapturePhoto (set_faceDetected true s)).
Proof.
  intros ([p Ep] & Hn & El) Ev. unfold runDetection_resume, _capturePhoto.
  simpl. rewrite Ep, El, Ev. apply Nat.ltb_lt in Hn. rewrite Hn. simpl.
  reflexivity.
Qed.

Lemma settle_frame p o s :
  isLoading (settle p o s) = isLoading s /\
  captureCompleter (settle p o s) = captureCompleter s /\
  tasks (settle p o s) = tasks s /\ trace (settle p o s) = trace s /\
  error (settle p o s) = error s /\ videoRef (settle p o s) = videoRef s.
Proof. unfold settle. repeat case_match; simpl; auto 10. Qed.

Lemma settle_lookup_ne p q o s :
  q <> p -> promises (settle p o s) !! q = promises s !! q.
Proof.
  intros Hne. unfold settle. repeat case_match; simpl; auto.
  now apply list_lookup_insert_ne.
Qed.

Lemma settle_lookup_eq p o s :
  promises s !! p = Some None -> promises (settle p o s) !! p = Some (Some o).
Proof.
  intros Hp. unfold settle. rewrite Hp. simpl.
  apply list_lookup_insert_eq. eapply lookup_lt_Some, Hp.
Qed.

Lemma reply_settles c reply s :
  _capturePhoto_resume c reply s =
  (Returned,
   set_isLoading false
     match ApiClient.post_then reply with
     | Fulfilled response => settle c (Fulfilled response) s
     | Rejected e =>
         settle c (Rejected e)
           (set_error (Some (or_else (message e) unexpected_capture_error)) s)
     end).
Proof.
  unfold _capturePhoto_resume, try_catch_finally, _capturePhoto_catch,
    _capturePhoto_finally.
  destruct (ApiClient.post_then reply); reflexivity.
Qed.

Lemma sends_nil_of_idle s : wf s -> isLoading s = false -> sends (tasks s) = [].
Proof.
  intros [Hb _ _] El. rewrite El in Hb. now apply length_zero_iff_nil.
Qed.

Lemma wf_tick detections frame s :
  wf s -> wf (spawn (runDetection_resume detections frame s)).
Proof.
  intros Hwf. destruct detections as [n|e]; [|exact Hwf].
  destruct (captureCompleter s) as [p|] eqn:Ep;
    [destruct (Nat.ltb_spec 0 n) as [Hn|Hn];
     [destruct (isLoading s) eqn:El|]|].
  2: destruct (videoRef s) as [v|] eqn:Ev;
       [destruct (encode_frame frame) as [img|e] eqn:Ef|].
  - rewrite tick_idle by (intros (_ & _ & ?); congruence).
    apply (wf_same s); auto.
  - erewrite tick_sends by eauto. simpl.
    pose proof (sends_nil_of_idle s Hwf El) as Hnil.
    destruct Hwf as [Hb Ha Hs]. split; simpl.
    + rewrite sends_app, Hnil. reflexivity.
    + discriminate.
    + rewrite sends_app, Hnil. simpl. intros q Hq.
      apply list_elem_of_singleton in Hq as ->. split; [auto|discriminate].
  - erewrite tick_encoding_fails by eauto. simpl.
    pose proof (sends_nil_of_idle s Hwf El) as Hnil.
    destruct (settle_frame p (Rejected e)
      (set_error (Some (or_else (message e) unexpected_capture_error))
         (capture_begun s))) as (_ & E2 & E3 & _).
    split; simpl.
    + rewrite E3. simpl. now rewrite Hnil.
    + rewrite E2. discriminate.
    + rewrite E3. simpl. rewrite Hnil. intros q Hq. inversion Hq.
  - rewrite tick_no_video by (repeat split; eauto).
    apply (wf_same s); auto.
  - rewrite tick_idle by (intros (_ & ? & _); lia).
    apply (wf_same s); auto.
  - rewrite tick_idle by (intros ([? ?] & _ & _); congruence).
    apply (wf_same s); auto.
Qed.

Lemma in_flight_facts s i c :
  wf s -> tasks s !! i = Some (AwaitSend c) ->
  isLoading s = true /\ sends (tasks s) = [c] /\
  sends (delete i (tasks s)) = [] /\
  promises s !! c = Some None /\ captureCompleter s <> Some c.
Proof.
  intros [Hb Ha Hs] Et.
  destruct (sends_delete_send _ _ _ Et) as (a & b & E1 & E2).
  rewrite E1, length_app in Hb. simpl in Hb.
  destruct (isLoading s); simpl in Hb; [|lia].
  destruct a; [|simpl in Hb; lia]. destruct b; [|simpl in Hb; lia].
  simpl in *. rewrite E1 in Hs.
  destruct (Hs c) as [? ?]; [apply list_elem_of_here|]. auto.
Qed.

Lemma wf_reply s i c reply :
  wf s -> tasks s !! i = Some (AwaitSend c) ->
  wf (spawn (_capturePhoto_resume c reply (set_tasks (delete i (tasks s)) s))).
Proof.
  intros Hwf Et.
  destruct (in_flight_facts s i c Hwf Et) as (El & E1 & E2 & Hc & Hne).
  destruct Hwf as [Hb Ha Hs].
  rewrite reply_settles. simpl.
  destruct (ApiClient.post_then reply) as [response|e];
    match goal with |- wf (set_isLoading false (settle ?p ?o ?s0)) =>
      destruct (settle_frame p o s0) as (_ & F2 & F3 & _);
      split; simpl;
      [ rewrite F3; simpl; now rewrite E2
      | rewrite F2; simpl; intros q Hq; rewrite settle_lookup_ne; simpl;
        [auto | congruence]
      | rewrite F3; simpl; rewrite E2; intros q Hq; inversion Hq ]
    end.
Qed.

Lemma wf_step e s s' : wf s -> step e s = Some s' -> wf s'.
Proof.
  intros Hwf Hstep. destruct e as [| | |opts|v|id|i r]; simpl in Hstep.
  - injection Hstep as <-. apply (wf_same s); auto; neutral.
  - injection Hstep as <-. apply (wf_same s); auto; neutral.
  - injection Hstep as <-. apply (wf_arm LoginRequest s Hwf).
  - injection Hstep as <-. apply (wf_arm (SignupRequest opts) s Hwf).
  - injection Hstep as <-. apply (wf_same s); auto.
  - case_bool_decide; [|discriminate]. injection Hstep as <-.
    apply (wf_same s); auto; neutral.
  - destruct (tasks s !! i) as [t|] eqn:Et; [|discriminate].
    assert (Hother : (forall c, t <> AwaitSend c) ->
                     wf (set_tasks (delete i (tasks s)) s)).
    { intros Hn. apply (wf_same s); auto. simpl.
      eapply sends_delete_other; eauto. }
    destruct t, r; try discriminate; injection Hstep as <-.
    + eapply wf_same; [..|apply Hother; discriminate]; neutral.
    + eapply wf_same; [..|apply Hother; discriminate]; neutral.
    + apply wf_tick, Hother. discriminate.
    + now apply wf_reply.
Qed.

Lemma wf_init v : wf (init v).
Proof. split; simpl; [reflexivity|discriminate|]. intros p Hp. inversion Hp. Qed.

Lemma wf_run events s s' : wf s -> run events s = Some s' -> wf s'.
Proof.
  intros Hwf Hrun.
  apply (run_invariant (fun _ => True) wf) with events s; auto.
  - intros. eapply wf_step; eauto.
  - now apply Forall_forall.
Qed.

Lemma wf_reachable s : reachable s -> wf s.
Proof. intros (v & events & Hrun). eapply wf_run; [apply wf_init|eauto]. Qed.

Lemma qualifies_dec n s : qualifies n s \/ ~ qualifies n s.
Proof.
  unfold qualifies.
  destruct (captureCompleter s) as [p|];
    [|right; intros ([? ?] & _); discriminate].
  destruct (Nat.ltb_spec 0 n) as [Hn|Hn]; [|right; intros (_ & ? & _); lia].
  destruct (isLoading s); [right; intros (_ & _ & ?); discriminate|].
  left. eauto.
Qed.

(** The four ways a completed detection can go. *)
Lemma tick_cases n frame s :
  (~ qualifies n s /\
   runDetection_resume (Fulfilled n) frame s =
   (Returned, set_faceDetected (0 <? n)%nat s))
  \/ (qualifies n s /\ videoRef s = None /\
      runDetection_resume (Fulfilled n) frame s =
      (Returned, log CapturePhoto (set_faceDetected true s)))
  \/ (exists p imageBase64,
        qualifies n s /\ captureCompleter s = Some p /\ is_Some (videoRef s) /\
        encode_frame frame = Fulfilled imageBase64 /\
        runDetection_resume (Fulfilled n) frame s =
        (Returned,
         set_tasks (tasks s ++ [AwaitSend p])
           (log (Fetch (request_sent imageBase64 s)) (capture_begun s))))
  \/ (exists p e,
        qualifies n s /\ captureCompleter s = Some p /\ is_Some (videoRef s) /\
        encode_frame frame = Rejected e /\
        runDetection_resume (Fulfilled n) frame s =
        (Returned,
         set_isLoading false
           (settle p (Rejected e)
              (set_error (Some (or_else (message e) unexpected_capture_error))
                 (capture_begun s))))).
Proof.
  destruct (qualifies_dec n s) as [Hq|Hq].
  - right. destruct (videoRef s) as [v|] eqn:Ev.
    + right. pose proof Hq as ([p Ep] & Hn & El).
      destruct (encode_frame frame) as [img|e] eqn:Ef.
      * left. exists p, img. split; [exact Hq|]. split; [exact Ep|].
        split; [eauto|]. split; [reflexivity|]. apply tick_sends; eauto.
      * right. exists p, e. split; [exact Hq|]. split; [exact Ep|].
        split; [eauto|]. split; [reflexivity|]. apply tick_encoding_fails; eauto.
    + left. split; [exact Hq|]. split; [reflexivity|]. now apply tick_no_video.
  - left. split; auto. now apply tick_idle.
Qed.

Lemma calls_since_app s s' acts :
  trace s' = trace s ++ acts -> calls_since s s' = acts.
Proof. intros E. unfold calls_since. rewrite E. apply drop_app_length. Qed.

Lemma calls_since_same s s' : trace s' = trace s -> calls_since s s' = [].
Proof. intros E. apply calls_since_app. now rewrite app_nil_r. Qed.

Lemma step_tick_sends s i p n frame imageBase64 :
  tasks s !! i = Some AwaitDetect -> captureCompleter s = Some p ->
  (0 < n)%nat -> isLoading s = false -> is_Some (videoRef s) ->
  encode_frame frame = Fulfilled imageBase64 ->
  step (EvResume i (DetectReply (Fulfilled n) frame)) s =
  Some (set_tasks (delete i (tasks s) ++ [AwaitSend p])
          (log (Fetch (request_sent imageBase64 s)) (capture_begun s))).
Proof.
  intros Et Ep Hn El Hv Ef. unfold step. rewrite Et.
  erewrite tick_sends; eauto.
Qed.

(** The reply to a send in flight settles its completer and lowers the busy
    flag. *)
Lemma step_reply s j p reply :
  wf s -> tasks s !! j = Some (AwaitSend p) ->
  exists s',
    step (EvResume j (FetchReply reply)) s = Some s'
    /\ isLoading s' = false /\ sends (tasks s') = []
    /\ captureCompleter s' = captureCompleter s
    /\ videoRef s' = videoRef s /\ trace s' = trace s
    /\ match ApiClient.post_then reply with
       | Fulfilled response =>
           promises s' !! p = Some (Some (Fulfilled response))
           /\ error s' = error s
       | Rejected e =>
           promises s' !! p = Some (Some (Rejected e))
           /\ error s' = Some (or_else (message e) unexpected_capture_error)
       end.
Proof.
  intros Hwf Et.
  destruct (in_flight_facts s j p Hwf Et) as (El & E1 & E2 & Hp & Hne).
  unfold step. rewrite Et, reply_settles. eexists. split; [reflexivity|].
  simpl.
  destruct (ApiClient.post_then reply) as [response|e];
    match goal with |- context [settle p ?o ?s0] =>
      destruct (settle_frame p o s0) as (F1 & F2 & F3 & F4 & F5 & F6);
      rewrite F2, F3, F4, F5, F6; simpl; rewrite E2;
      rewrite settle_lookup_eq by exact Hp
    end; auto 10.
Qed.

(** ToString throws nothing but the [TypeError] of an object that cannot be
    converted. *)
Lemma to_string_throws (v : json) (e : js_error) :
  to_string v = Rejected e ->
  e = TypeError "Cannot convert object to primitive value".
Proof.
  revert e. induction v as [|[]| | |items IH|props] using json_ind_deep;
    intros e He; try discriminate.
  - simpl in He. induction IH as [|x rest Hx _ IHrest]; [discriminate|].
    destruct (match x with JNull => Fulfilled "" | _ => to_string x end)
      as [piece|e0] eqn:Ex.
    + destruct rest as [|y rest']; [discriminate|].
      match type of He with
      | context [match ?j with Fulfilled _ => _ | Rejected _ => _ end] =>
          destruct j as [pieces|e1] eqn:Ej
      end; [discriminate|].
      injection He as <-. now apply IHrest.
    + injection He as <-. apply Hx. now destruct x.
  - simpl in He. destruct (assoc "toString" props); [|discriminate].
    now injection He as <-.
Qed.

Lemma post_then_ok resp responseData :
  ApiClient.ok resp = true ->
  ApiClient.json_body resp = Fulfilled responseData ->
  ApiClient.post_then (Fulfilled resp) = Fulfilled responseData.
Proof. intros Hok Hb. unfold ApiClient.post_then. now rewrite Hb, Hok. Qed.

Lemma post_then_error resp responseData :
  ApiClient.ok resp = false ->
  ApiClient.json_body resp = Fulfilled responseData ->
  responseData <> JNull ->
  ApiClient.post_then (Fulfilled resp) = Rejected (api_error responseData).
Proof.
  intros Hok Hb Hnull. unfold ApiClient.post_then, api_error.
  rewrite Hb, Hok. simpl.
  destruct responseData as [| | | | |props]; try reflexivity; [congruence|].
  simpl. destruct (assoc "detail" props) as [d|]; [|reflexivity].
  destruct (truthy d); [|reflexivity]. now destruct (to_string d).
Qed.

Lemma or_else_nonempty s fallback : s <> "" -> or_else s fallback = s.
Proof.
  intros Hs. unfold or_else. destruct (String.eqb_spec s ""); congruence.
Qed.

Lemma sends_delete_elem (l : list task) i p :
  p ∈ sends (delete i l) -> p ∈ sends l.
Proof.
  revert i. induction l as [|t l IH]; intros [|i]; simpl; auto.
  - destruct t; auto. intros H. now apply list_elem_of_further.
  - destruct t; simpl; eauto. intros H.
    apply elem_of_cons in H as [->|H];
      [apply list_elem_of_here|apply list_elem_of_further; eauto].
Qed.

Lemma abandoned_same p s s' :
  captureCompleter s' = captureCompleter s -> promises s' = promises s ->
  sends (tasks s') = sends (tasks s) -> abandoned p s -> abandoned p s'.
Proof. intros E1 E2 E3. unfold abandoned. now rewrite E1, E2, E3. Qed.

Lemma abandoned_tasks p s i :
  abandoned p s -> abandoned p (set_tasks (delete i (tasks s)) s).
Proof.
  intros (Hp & Hc & Hs). repeat split; simpl; auto.
  intros H. apply Hs. eapply sends_delete_elem, H.
Qed.

(** A promise that nothing holds stays pending, whatever happens next. *)
Lemma abandoned_step p e s s' :
  abandoned p s -> step e s = Some s' -> abandoned p s'.
Proof.
  intros Hab Hstep. destruct e as [| | |opts|v|id|i r]; simpl in Hstep.
  - injection Hstep as <-. apply (abandoned_same p s); auto; neutral.
  - injection Hstep as <-. apply (abandoned_same p s); auto; neutral.
  - injection Hstep as <-. destruct Hab as (Hp & Hc & Hs).
    pose proof (lookup_lt_Some _ _ _ Hp) as Hlt.
    repeat split; simpl; auto.
    + rewrite lookup_app_l; auto.
    + intros [= E]. lia.
  - injection Hstep as <-. destruct Hab as (Hp & Hc & Hs).
    pose proof (lookup_lt_Some _ _ _ Hp) as Hlt.
    repeat split; simpl; auto.
    + rewrite lookup_app_l; auto.
    + intros [= E]. lia.
  - injection Hstep as <-. apply (abandoned_same p s); auto.
  - case_bool_decide; [|discriminate]. injection Hstep as <-.
    apply (abandoned_same p s); auto; neutral.
  - destruct (tasks s !! i) as [t|] eqn:Et; [|discriminate].
    pose proof (abandoned_tasks p s i Hab) as Hab0.
    set (s0 := set_tasks (delete i (tasks s)) s) in *.
    destruct t, r; try discriminate; injection Hstep as <-.
    + eapply abandoned_same; [..|exact Hab0]; neutral.
    + eapply abandoned_same; [..|exact Hab0]; neutral.
    + destruct detections as [n|e]; [|exact Hab0].
      destruct Hab0 as (Hp & Hc & Hs).
      destruct (tick_cases n frame s0)
        as [(Hq & E)|[(Hq & Ev & E)|[(q & img & Hq & Eq & Hv & Ef & E)
                                    |(q & e & Hq & Eq & Hv & Ef & E)]]];
        rewrite E; simpl.
      * repeat split; auto.
      * repeat split; auto.
      * split; [exact Hp|]. split; [discriminate|]. simpl.
        rewrite sends_app. simpl. intros H.
        apply elem_of_app in H as [H|H]; [now apply Hs|].
        apply list_elem_of_singleton in H. congruence.
      * match goal with |- context [settle q ?o ?s1] =>
          destruct (settle_frame q o s1) as (_ & F2 & F3 & _)
        end.
        repeat split; simpl.
        -- rewrite settle_lookup_ne; [exact Hp|congruence].
        -- rewrite F2. discriminate.
        -- rewrite F3. exact Hs.
    + assert (Hne : p <> completer).
      { intros ->. destruct Hab as (_ & _ & Hs). apply Hs.
        clear - Et. revert i Et.
        induction (tasks s) as [|t l IH]; intros [|i] Et; simpl in *;
          try discriminate.
        - injection Et as ->. apply list_elem_of_here.
        - destruct t; eauto. apply list_elem_of_further. eauto. }
      destruct Hab0 as (Hp & Hc & Hs).
      rewrite reply_settles. simpl.
      destruct (ApiClient.post_then response) as [data|e];
        match goal with |- context [settle completer ?o ?s1] =>
          destruct (settle_frame completer o s1) as (_ & F2 & F3 & _)
        end;
        (repeat split; simpl;
         [rewrite settle_lookup_ne; [exact Hp|exact Hne]
         |rewrite F2; exact Hc|rewrite F3; exact Hs]).
Qed.

(** Only arming writes the mode and the custom fields, and only arming
    stores a completer. *)
Lemma request_kept e s s' :
  ~ is_arming e -> step e s = Some s' ->
  captureMode s' = captureMode s
  /\ signupCustomFields s' = signupCustomFields s
  /\ (captureCompleter s' = captureCompleter s \/ captureCompleter s' = None).
Proof.
  intros Hna Hstep. destruct e as [| | |opts|v|id|i r]; simpl in Hstep;
    try (now destruct Hna).
  - injection Hstep as <-. split; [|split; [|left]]; neutral.
  - injection Hstep as <-. split; [|split; [|left]]; neutral.
  - injection Hstep as <-. auto.
  - case_bool_decide; [|discriminate]. injection Hstep as <-.
    split; [|split; [|left]]; neutral.
  - destruct (tasks s !! i) as [t|] eqn:Et; [|discriminate].
    set (s0 := set_tasks (delete i (tasks s)) s) in *.
    destruct t, r; try discriminate; injection Hstep as <-.
    + split; [|split; [|left]]; subst s0; neutral.
    + split; [|split; [|left]]; subst s0; neutral.
    + destruct detections as [n|e]; [|simpl; auto].
      destruct (tick_cases n frame s0)
        as [(Hq & E)|[(Hq & Ev & E)|[(q & img & Hq & Eq & Hv & Ef & E)
                                    |(q & e & Hq & Eq & Hv & Ef & E)]]];
        rewrite E; simpl; auto.
      unfold settle; repeat case_match; simpl; auto.
    + rewrite reply_settles. simpl.
      destruct (ApiClient.post_then response);
        unfold settle; repeat case_match; simpl; auto.
Qed.

Lemma request_sent_described r imageBase64 s :
  captureMode s = request_mode r ->
  signupCustomFields s = request_fields r ->
  request_sent imageBase64 s = described_send r imageBase64.
Proof.
  intros Em Ef. unfold request_sent, described_send. rewrite Em, Ef.
  destruct r as [|[[fields|]|]]; reflexivity.
Qed.

Lemma request_sent_is_described imageBase64 s :
  exists r, request_sent imageBase64 s = described_send r imageBase64.
Proof.
  unfold request_sent. destruct (captureMode s).
  - now exists LoginRequest.
  - exists (SignupRequest (Some (signupCustomFields s))).
    now destruct (signupCustomFields s).
Qed.

Ltac no_fetch :=
  let H := fresh "H" in
  intros H;
  repeat (apply elem_of_app in H as [H|H]); auto;
  repeat (apply elem_of_cons in H as [H|H]); try discriminate;
  try (now inversion H).

(** Where a [fetch] in the trace comes from: it was there before the step,
    or the step made it for the request held at that moment. *)
Lemma fetch_origin e s s' req :
  step e s = Some s' -> Fetch req ∈ trace s' ->
  Fetch req ∈ trace s \/ exists imageBase64, req = request_sent imageBase64 s.
Proof.
  intros Hstep Hin. destruct e as [| | |opts|v|id|i r]; simpl in Hstep.
  - injection Hstep as <-. left. revert Hin. neutral; no_fetch.
  - injection Hstep as <-. left. revert Hin. neutral; no_fetch.
  - injection Hstep as <-. now left.
  - injection Hstep as <-. now left.
  - injection Hstep as <-. now left.
  - case_bool_decide; [|discriminate]. injection Hstep as <-.
    left. revert Hin. neutral; no_fetch.
  - destruct (tasks s !! i) as [t|] eqn:Et; [|discriminate].
    set (s0 := set_tasks (delete i (tasks s)) s) in *.
    destruct t, r; try discriminate; injection Hstep as <-.
    + left. revert Hin. subst s0. neutral; no_fetch.
    + left. revert Hin. subst s0. neutral; no_fetch.
    + destruct detections as [n|e]; [|now left].
      revert Hin.
      destruct (tick_cases n frame s0)
        as [(Hq & E)|[(Hq & Ev & E)|[(q & img & Hq & Eq & Hv & Ef & E)
                                    |(q & e & Hq & Eq & Hv & Ef & E)]]];
        rewrite E; simpl.
      * auto.
      * intros H. left. revert H. no_fetch.
      * intros H. apply elem_of_app in H as [H|H].
        -- left. revert H. no_fetch.
        -- right. apply list_elem_of_singleton in H. injection H as ->.
           now exists img.
      * match goal with |- context [settle q ?o ?s1] =>
          destruct (settle_frame q o s1) as (_ & _ & _ & F4 & _)
        end.
        rewrite F4. simpl. intros H. left. revert H. no_fetch.
    + left. revert Hin. rewrite reply_settles. simpl.
      destruct (ApiClient.post_then response);
        match goal with |- context [settle completer ?o ?s1] =>
          destruct (settle_frame completer o s1) as (_ & _ & _ & F4 & _)
        end; now rewrite F4.
Qed.

Lemma idle_ready s : wf s -> isLoading s = false -> ready s.
Proof.
  intros Hwf El r i n frame img Et Hv Hn Ef.
  pose proof (sends_nil_of_idle s Hwf El) as Hnil.
  set (s1 := snd (arm r s)).
  assert (E1 : s1 = snd (arm r s)) by reflexivity.
  rewrite arm_eq in E1. simpl in E1.
  assert (Hs : step (EvResume i (DetectReply (Fulfilled n) frame)) s1 =
               Some (set_tasks (delete i (tasks s1)
                                ++ [AwaitSend (length (promises s))])
                       (log (Fetch (request_sent img s1))
                          (capture_begun s1)))).
  { apply step_tick_sends; auto; rewrite E1; auto. }
  eexists. split; [cbn [run]; rewrite step_arm; fold s1; rewrite Hs;
                   reflexivity|].
  rewrite (request_sent_described r img s1) by (rewrite E1; reflexivity).
  split; [|split; [reflexivity|]].
  - apply calls_since_app. rewrite E1. simpl. now rewrite <- app_assoc.
  - simpl. rewrite sends_app, arm_eq. simpl.
    rewrite E1. simpl.
    rewrite (sends_delete_other (tasks s) i AwaitDetect Et), Hnil;
      [reflexivity|discriminate].
Qed.

(** [settle] writes the promise store and nothing else. *)
Lemma settle_rest p o s :
  isInitializing (settle p o s) = isInitializing s /\
  faceDetected (settle p o s) = faceDetected s /\
  stream (settle p o s) = stream s /\
  detectionInterval (settle p o s) = detectionInterval s /\
  captureMode (settle p o s) = captureMode s /\
  signupCustomFields (settle p o s) = signupCustomFields s /\
  timers (settle p o s) = timers s /\
  nextTimer (settle p o s) = nextTimer s /\
  liveStreams (settle p o s) = liveStreams s.
Proof. unfold settle. repeat case_match; simpl; auto 12. Qed.

Lemma tick_keeps_flag detections frame s :
  isInitializing (spawn (runDetection_resume detections frame s))
  = isInitializing s.
Proof.
  destruct detections as [n|e]; [|reflexivity].
  destruct (tick_cases n frame s)
    as [(Hq & E)|[(Hq & Ev & E)|[(q & img & Hq & Eq & Hv & Ef & E)
                                |(q & e & Hq & Eq & Hv & Ef & E)]]];
    rewrite E; try reflexivity.
  match goal with |- context [settle q ?o ?s1] =>
    destruct (settle_rest q o s1) as (F & _)
  end.
  cbn [spawn set_isLoading isInitializing]. rewrite F. reflexivity.
Qed.

Lemma reply_keeps_flag completer reply s :
  isInitializing (spawn (_capturePhoto_resume completer reply s))
  = isInitializing s.
Proof.
  rewrite reply_settles. cbn [spawn set_isLoading isInitializing].
  destruct (ApiClient.post_then reply);
    match goal with |- context [settle completer ?o ?s1] =>
      destruct (settle_rest completer o s1) as (F & _)
    end; rewrite F; reflexivity.
Qed.

(** Only [start] writes the initializing flag. *)
Lemma outside_start_keeps_flag e s s' :
  outside_start e s -> step e s = Some s' ->
  isInitializing s' = isInitializing s.
Proof.
  intros Hout Hstep.
  destruct e as [| | |opts|v|id|i r]; simpl in Hstep; try (now destruct Hout).
  - injection Hstep as <-. neutral.
  - now injection Hstep as <-.
  - now injection Hstep as <-.
  - now injection Hstep as <-.
  - case_bool_decide; [|discriminate]. injection Hstep as <-. neutral.
  - destruct Hout as [Ho1 Ho2].
    destruct (tasks s !! i) as [t|] eqn:Et; [|discriminate].
    destruct t, r; try discriminate; try congruence; injection Hstep as <-.
    + now rewrite tick_keeps_flag.
    + now rewrite reply_keeps_flag.
Qed.

Lemma start_never_throws :
  (forall s e, fst (start s) <> Threw e)
  /\ (forall loaded s e, fst (start_models loaded s) <> Threw e)
  /\ (forall media s e, fst (start_media media s) <> Threw e).
Proof.
  repeat apply conj.
  - intros s e. unfold start, try_catch_finally.
    destruct (videoRef s); discriminate.
  - intros [[]|e0] s e; discriminate.
  - intros [strm|e0] s e; [|discriminate].
    unfold start_media, try_catch_finally. simpl.
    destruct (videoRef s); discriminate.
Qed.

Lemma start_begins s :
  is_Some (videoRef s) ->
  start s =
  (Parked AwaitModels,
   log (LoadFromUri modelPath) (set_error None (set_isInitializing true s))).
Proof. intros [v Ev]. unfold start. now rewrite Ev. Qed.

(** Case analysis on what [stop] finds stored. *)
Ltac stop_cases s :=
  let strm := fresh "strm" in
  let di := fresh "di" in
  let vr := fresh "vr" in
  destruct s as [? ? ? ? strm di ? ? ? vr ? ? ? ? ? ?];
  destruct strm, di, vr.

Lemma stop_stop s : stop (stop s) = stop s.
Proof. stop_cases s; vm_compute; reflexivity. Qed.

(** What [stop] leaves in each variable it writes, and the calls it makes. *)
Lemma stop_fields s :
  faceDetected (stop s) = false
  /\ detectionInterval (stop s) = None
  /\ stream (stop s) = None
  /\ videoRef (stop s) = (fun _ => mkVideo None) <$> videoRef s
  /\ timers (stop s) =
     match detectionInterval s with
     | Some id => filter (fun t => t ≠ id) (timers s)
     | None => timers s
     end
  /\ liveStreams (stop s) =
     match stream s with
     | Some strm => filter (fun t => t ≠ strm) (liveStreams s)
     | None => liveStreams s
     end
  /\ trace (stop s) =
     trace s
     ++ (match detectionInterval s with
         | Some id => [ClearInterval id]
         | None => []
         end
         ++ match stream s with
            | Some strm => [StopTracks strm]
            | None => []
            end).
Proof.
  stop_cases s; cbv [stop clearInterval stopTracks log set_timers
    set_liveStreams set_detectionInterval set_stream set_videoRef
    set_faceDetected faceDetected detectionInterval stream videoRef timers
    nextTimer liveStreams trace isLoading isInitializing error
    captureCompleter captureMode signupCustomFields promises tasks fmap
    option_fmap option_map];
    rewrite <- ?app_assoc, ?app_nil_r; repeat split.
Qed.

Lemma stop_keeps s :
  isLoading (stop s) = isLoading s
  /\ captureCompleter (stop s) = captureCompleter s
  /\ promises (stop s) = promises s
  /\ tasks (stop s) = tasks s.
Proof. stop_cases s; vm_compute; repeat split. Qed.

Lemma post_then_not_json resp e :
  ApiClient.json_body resp = Rejected e ->
  ApiClient.post_then (Fulfilled resp) = Rejected e.
Proof. intros Hb. unfold ApiClient.post_then. now rewrite Hb. Qed.

Lemma post_then_null resp :
  ApiClient.ok resp = false ->
  ApiClient.json_body resp = Fulfilled JNull ->
  ApiClient.post_then (Fulfilled resp) =
  Rejected (TypeError "Cannot read properties of null (reading 'detail')").
Proof. intros Hok Hb. unfold ApiClient.post_then. now rewrite Hb, Hok. Qed.

Lemma step_tick_stopped id s : id ∉ timers s -> step (EvTick id) s = None.
Proof. intros Hid. unfold step. now rewrite bool_decide_false. Qed.

Lemma step_tick_no_video id s :
  id ∈ timers s -> videoRef s = None -> step (EvTick id) s = Some s.
Proof.
  intros Hid Ev. unfold step, runDetection.
  rewrite bool_decide_true by exact Hid. now rewrite Ev.
Qed.

Lemma step_tick_video id s :
  id ∈ timers s -> is_Some (videoRef s) ->
  step (EvTick id) s =
  Some (set_tasks (tasks s ++ [AwaitDetect]) (log DetectAllFaces s)).
Proof.
  intros Hid [v Ev]. unfold step, runDetection.
  rewrite bool_decide_true by exact Hid. now rewrite Ev.
Qed.

(** Settling a promise and writing the busy flag leave the rest alone. *)
Lemma settled_fields b p o s :
  trace (set_isLoading b (settle p o s)) = trace s
  /\ faceDetected (set_isLoading b (settle p o s)) = faceDetected s
  /\ captureCompleter (set_isLoading b (settle p o s)) = captureCompleter s
  /\ isLoading (set_isLoading b (settle p o s)) = b
  /\ tasks (set_isLoading b (settle p o s)) = tasks s
  /\ error (set_isLoading b (settle p o s)) = error s
  /\ isInitializing (set_isLoading b (settle p o s)) = isInitializing s
  /\ timers (set_isLoading b (settle p o s)) = timers s.
Proof. unfold settle. repeat case_match; repeat split. Qed.

(** The state in which a capture that could not encode its frame ends. *)
Lemma capture_rejected_fields p e s :
  let s' :=
    set_isLoading false
      (settle p (Rejected e)
         (set_error (Some (or_else (message e) unexpected_capture_error))
            (capture_begun s))) in
  trace s' = trace s ++ [CapturePhoto] /\ faceDetected s' = true
  /\ captureCompleter s' = None /\ isLoading s' = false
  /\ tasks s' = tasks s
  /\ error s' = Some (or_else (message e) unexpected_capture_error)
  /\ isInitializing s' = isInitializing s /\ timers s' = timers s.
Proof.
  intros s'. subst s'.
  match goal with |- context [settle p ?o ?s0] =>
    destruct (settled_fields false p o s0)
      as (F1 & F2 & F3 & F4 & F5 & F6 & F7 & F8)
  end.
  rewrite F1, F2, F3, F4, F5, F6, F7, F8. repeat split.
Qed.

(** What the answer of the detector to a pending tick does, case by case:
    the state after it and the calls made. *)
Lemma detect_reply_cases s i n frame :
  tasks s !! i = Some AwaitDetect ->
  exists s' acts,
    step (EvResume i (DetectReply (Fulfilled n) frame)) s = Some s'
    /\ trace s' = trace s ++ acts
    /\ faceDetected s' = (0 <? n)%nat
    /\ isInitializing s' = isInitializing s /\ timers s' = timers s
    /\ ((~ qualifies n s /\ acts = []
         /\ captureCompleter s' = captureCompleter s
         /\ isLoading s' = isLoading s /\ promises s' = promises s
         /\ tasks s' = delete i (tasks s)
         /\ s' = set_faceDetected (0 <? n)%nat
                   (set_tasks (delete i (tasks s)) s))
        \/ (qualifies n s /\ videoRef s = None /\ acts = [CapturePhoto]
            /\ tasks s' = delete i (tasks s)
            /\ s' = log CapturePhoto
                      (set_faceDetected true
                         (set_tasks (delete i (tasks s)) s)))
        \/ (exists p imageBase64,
              qualifies n s /\ captureCompleter s = Some p
              /\ is_Some (videoRef s)
              /\ encode_frame frame = Fulfilled imageBase64
              /\ acts = [CapturePhoto; Fetch (request_sent imageBase64 s)]
              /\ captureCompleter s' = None /\ isLoading s' = true
              /\ tasks s' = delete i (tasks s) ++ [AwaitSend p]
              /\ s' = set_tasks (delete i (tasks s) ++ [AwaitSend p])
                        (log (Fetch (request_sent imageBase64 s))
                           (capture_begun
                              (set_tasks (delete i (tasks s)) s))))
        \/ (exists p e,
              qualifies n s /\ captureCompleter s = Some p
              /\ is_Some (videoRef s)
              /\ encode_frame frame = Rejected e
              /\ acts = [CapturePhoto]
              /\ captureCompleter s' = None /\ isLoading s' = false
              /\ tasks s' = delete i (tasks s)
              /\ s' = set_isLoading false
                        (settle p (Rejected e)
                           (set_error
                              (Some (or_else (message e)
                                       unexpected_capture_error))
                              (capture_begun
                                 (set_tasks (delete i (tasks s)) s)))))).
Proof.
  intros Et. unfold step. rewrite Et.
  destruct (qualifies_dec n s) as [Hq|Hq].
  - pose proof Hq as ([p Ep] & Hn & El). pose proof Hn as Hn'.
    apply Nat.ltb_lt in Hn'. rewrite Hn'.
    destruct (videoRef s) as [v|] eqn:Ev.
    + destruct (encode_frame frame) as [img|e] eqn:Ef.
      * erewrite tick_sends by eauto.
        eexists _, _. split; [reflexivity|].
        split; [simpl; now rewrite <- app_assoc|].
        split; [reflexivity|]. split; [reflexivity|]. split; [reflexivity|].
        right. right. left. exists p, img.
        split; [exact Hq|]. split; [exact Ep|]. split; [eauto|].
        repeat split.
      * erewrite tick_encoding_fails by eauto.
        destruct (capture_rejected_fields p e
                    (set_tasks (delete i (tasks s)) s))
          as (F1 & F2 & F3 & F4 & F5 & F6 & F7 & F8).
        eexists _, _. split; [reflexivity|].
        split; [exact F1|]. split; [exact F2|]. split; [exact F7|].
        split; [exact F8|].
        right. right. right. exists p, e.
        split; [exact Hq|]. split; [exact Ep|]. split; [eauto|].
        split; [reflexivity|]. split; [reflexivity|]. split; [exact F3|].
        split; [exact F4|]. split; [exact F5|]. reflexivity.
    + rewrite tick_no_video by (auto; try exact Ev).
      eexists _, _. split; [reflexivity|]. split; [reflexivity|].
      split; [reflexivity|]. split; [reflexivity|]. split; [reflexivity|].
      right. left. repeat split; auto.
  - rewrite tick_idle by exact Hq.
    eexists _, []. split; [reflexivity|]. split; [now rewrite app_nil_r|].
    split; [reflexivity|]. split; [reflexivity|]. split; [reflexivity|].
    left. repeat split; auto.
Qed.

Lemma promises_settled b p o s :
  promises s !! p = Some None ->
  promises (set_isLoading b (settle p o s)) !! p = Some (Some o).
Proof. intros Hp. now apply settle_lookup_eq. Qed.

Lemma setups_app (l1 l2 : list task) :
  setups (l1 ++ l2) = (setups l1 + setups l2)%nat.
Proof. induction l1 as [|[] l1 IH]; simpl; auto. Qed.

Lemma setups_delete_other (l : list task) i t :
  l !! i = Some t -> t <> AwaitModels -> t <> AwaitUserMedia ->
  setups (delete i l) = setups l.
Proof.
  revert i. induction l as [|a l IH]; intros [|i] H H1 H2; simpl in *;
    try discriminate.
  - injection H as ->. destruct t; auto; congruence.
  - rewrite (IH i H H1 H2). reflexivity.
Qed.

Lemma setups_delete_setup (l : list task) i t :
  l !! i = Some t -> t = AwaitModels \/ t = AwaitUserMedia ->
  setups l = S (setups (delete i l)).
Proof.
  revert i. induction l as [|a l IH]; intros [|i] H Ht; simpl in *;
    try discriminate.
  - injection H as ->. destruct Ht as [-> | ->]; reflexivity.
  - rewrite (IH i H Ht). now destruct a.
Qed.

Lemma step_start_video s :
  is_Some (videoRef s) ->
  step EvStart s =
  Some (set_tasks (tasks s ++ [AwaitModels])
          (log (LoadFromUri modelPath)
             (set_error None (set_isInitializing true s)))).
Proof. intros Hv. unfold step. now rewrite start_begins. Qed.

Lemma step_models_loaded s i :
  tasks s !! i = Some AwaitModels ->
  step (EvResume i (ModelsReply (Fulfilled tt))) s =
  Some (set_tasks (delete i (tasks s) ++ [AwaitUserMedia])
          (log GetUserMedia s)).
Proof. intros Et. unfold step. rewrite Et. reflexivity. Qed.

Lemma step_models_failed s i e :
  tasks s !! i = Some AwaitModels ->
  step (EvResume i (ModelsReply (Rejected e))) s =
  Some (set_isInitializing false
          (set_error
             (Some ("Failed to start camera: Failed to load face detection models. Please check the modelPath. Error: "
                    +:+ error_to_string e))
             (set_tasks (delete i (tasks s)) s))).
Proof. intros Et. unfold step. rewrite Et. reflexivity. Qed.

Lemma step_camera_refused s i e :
  tasks s !! i = Some AwaitUserMedia ->
  step (EvResume i (MediaReply (Rejected e))) s =
  Some (set_isInitializing false
          (set_error (Some ("Failed to start camera: " +:+ message e))
             (set_tasks (delete i (tasks s)) s))).
Proof. intros Et. unfold step. rewrite Et. reflexivity. Qed.

Lemma step_camera_granted_no_video s i strm :
  tasks s !! i = Some AwaitUserMedia -> videoRef s = None ->
  step (EvResume i (MediaReply (Fulfilled strm))) s =
  Some (set_isInitializing false
          (set_error
             (Some "Failed to start camera: Cannot set properties of null (setting 'srcObject')")
             (set_stream (Some strm)
                (set_liveStreams (strm :: liveStreams s)
                   (set_tasks (delete i (tasks s)) s))))).
Proof.
  intros Et Ev. unfold step. rewrite Et.
  unfold start_media, try_catch_finally. cbn [set_stream set_liveStreams set_tasks videoRef].
  rewrite Ev. reflexivity.
Qed.

Lemma step_camera_granted s i strm :
  tasks s !! i = Some AwaitUserMedia -> is_Some (videoRef s) ->
  step (EvResume i (MediaReply (Fulfilled strm))) s =
  Some (set_isInitializing false
          (set_detectionInterval (Some (nextTimer s))
             (log (SetInterval (nextTimer s))
                (set_timers (nextTimer s :: timers s) (Pos.succ (nextTimer s))
                   (set_videoRef (Some (mkVideo (Some strm)))
                      (set_stream (Some strm)
                         (set_liveStreams (strm :: liveStreams s)
                            (set_tasks (delete i (tasks s)) s)))))))).
Proof.
  intros Et [v Ev]. unfold step. rewrite Et.
  unfold start_media, try_catch_finally. cbn [set_stream set_liveStreams set_tasks videoRef].
  rewrite Ev. reflexivity.
Qed.

Lemma step_start_no_video s :
  videoRef s = None ->
  step EvStart s =
  Some (set_error (Some "Video element reference is not available.") s).
Proof. intros Ev. unfold step, start. now rewrite Ev. Qed.

(** What an event outside [start] leaves alone. *)
Lemma outside_start_frame e s s' :
  outside_start e s -> step e s = Some s' ->
  isInitializing s' = isInitializing s
  /\ setups (tasks s') = setups (tasks s)
  /\ (forall id, id ∈ timers s' -> id ∈ timers s).
Proof.
  intros Hout Hstep.
  split; [eapply outside_start_keeps_flag; eauto|].
  destruct e as [| | |opts|v|id|i r]; try (now destruct Hout).
  - injection Hstep as <-.
    destruct (stop_keeps s) as (_ & _ & _ & K4).
    destruct (stop_fields s) as (_ & _ & _ & _ & F5 & _).
    rewrite K4, F5. split; [reflexivity|]. intros id.
    destruct (detectionInterval s); [|auto].
    rewrite list_elem_of_filter. tauto.
  - injection Hstep as <-. split; [reflexivity|auto].
  - injection Hstep as <-. split; [reflexivity|auto].
  - injection Hstep as <-. split; [reflexivity|auto].
  - unfold step, runDetection in Hstep.
    case_bool_decide; [|discriminate]. injection Hstep as <-.
    destruct (videoRef s); cbn [spawn set_tasks log tasks timers];
      [rewrite setups_app, Nat.add_0_r|]; auto.
  - destruct Hout as [Ho1 Ho2].
    destruct (tasks s !! i) as [t|] eqn:Et;
      [|unfold step in Hstep; rewrite Et in Hstep; discriminate].
    assert (Hdel : setups (delete i (tasks s)) = setups (tasks s))
      by (eapply setups_delete_other; [exact Et|congruence|congruence]).
    destruct t; try congruence.
    + destruct r as [loaded|media|[n|e] frame|response];
        try (unfold step in Hstep; rewrite Et in Hstep; discriminate).
      * destruct (detect_reply_cases s i n frame Et)
          as (s'' & acts & Hs & _ & _ & _ & Htm & Hc).
        rewrite Hs in Hstep. injection Hstep as <-. rewrite Htm.
        split; [|auto].
        destruct Hc as [(_ & _ & _ & _ & _ & Ht & _)
          |[(_ & _ & _ & Ht & _)
           |[(p & img & _ & _ & _ & _ & _ & _ & _ & Ht & _)
            |(p & e & _ & _ & _ & _ & _ & _ & _ & Ht & _)]]];
          rewrite Ht, ?setups_app, ?Nat.add_0_r; exact Hdel.
      * unfold step in Hstep. rewrite Et in Hstep. injection Hstep as <-.
        split; [exact Hdel|auto].
    + destruct r as [loaded|media|d frame|response];
        try (unfold step in Hstep; rewrite Et in Hstep; discriminate).
      unfold step in Hstep. rewrite Et, reply_settles in Hstep.
      injection Hstep as <-. cbn [spawn].
      destruct (ApiClient.post_then response);
        match goal with |- context [settle completer ?o ?s1] =>
          destruct (settled_fields false completer o s1)
            as (_ & _ & _ & _ & F5 & _ & _ & F8)
        end; rewrite F5, F8; (split; [exact Hdel|auto]).
Qed.

(** The events that are part of an execution of [start], and the state
    each leaves. *)
Lemma start_step_cases e s s' :
  step e s = Some s' ->
  outside_start e s
  \/ (e = EvStart /\ videoRef s = None
      /\ s' = set_error (Some "Video element reference is not available.") s)
  \/ (e = EvStart /\ is_Some (videoRef s)
      /\ s' = set_tasks (tasks s ++ [AwaitModels])
                (log (LoadFromUri modelPath)
                   (set_error None (set_isInitializing true s))))
  \/ (exists i,
        e = EvResume i (ModelsReply (Fulfilled tt))
        /\ tasks s !! i = Some AwaitModels
        /\ s' = set_tasks (delete i (tasks s) ++ [AwaitUserMedia])
                  (log GetUserMedia s))
  \/ (exists i msg,
        (tasks s !! i = Some AwaitModels \/ tasks s !! i = Some AwaitUserMedia)
        /\ ~ camera_granted e
        /\ s' = set_isInitializing false
                  (set_error (Some msg) (set_tasks (delete i (tasks s)) s)))
  \/ (exists i strm,
        e = EvResume i (MediaReply (Fulfilled strm))
        /\ tasks s !! i = Some AwaitUserMedia /\ videoRef s = None
        /\ s' = set_isInitializing false
                  (set_error
                     (Some "Failed to start camera: Cannot set properties of null (setting 'srcObject')")
                     (set_stream (Some strm)
                        (set_liveStreams (strm :: liveStreams s)
                           (set_tasks (delete i (tasks s)) s)))))
  \/ (exists i strm,
        e = EvResume i (MediaReply (Fulfilled strm))
        /\ tasks s !! i = Some AwaitUserMedia /\ is_Some (videoRef s)
        /\ s' = set_isInitializing false
                  (set_detectionInterval (Some (nextTimer s))
                     (log (SetInterval (nextTimer s))
                        (set_timers (nextTimer s :: timers s)
                           (Pos.succ (nextTimer s))
                           (set_videoRef (Some (mkVideo (Some strm)))
                              (set_stream (Some strm)
                                 (set_liveStreams (strm :: liveStreams s)
                                    (set_tasks (delete i (tasks s)) s)))))))).
Proof.
  intros Hstep. destruct e as [| | |opts|v|id|i r]; try (left; exact I).
  - right. destruct (videoRef s) as [v|] eqn:Ev.
    + right. left. rewrite step_start_video in Hstep by eauto.
      injection Hstep as <-. eauto.
    + left. rewrite step_start_no_video in Hstep by exact Ev.
      injection Hstep as <-. auto.
  - destruct (tasks s !! i) as [t|] eqn:Et;
      [|unfold step in Hstep; rewrite Et in Hstep; discriminate].
    destruct t; [| | left; split; congruence | left; split; congruence].
    + right. right. right.
      destruct r as [[[]|e]|media|d frame|response];
        try (unfold step in Hstep; rewrite Et in Hstep; discriminate).
      * left. exists i. rewrite step_models_loaded in Hstep by exact Et.
        injection Hstep as <-. auto.
      * right. left. rewrite step_models_failed in Hstep by exact Et.
        injection Hstep as <-. eexists i, _. split; [auto|].
        split; [intros []|reflexivity].
    + right. right. right. right.
      destruct r as [loaded|[strm|e]|d frame|response];
        try (unfold step in Hstep; rewrite Et in Hstep; discriminate).
      * right. destruct (videoRef s) as [v|] eqn:Ev.
        -- right. rewrite step_camera_granted in Hstep by eauto.
           injection Hstep as <-. exists i, strm. eauto.
        -- left. rewrite step_camera_granted_no_video in Hstep by auto.
           injection Hstep as <-. exists i, strm. auto.
      * left. rewrite step_camera_refused in Hstep by exact Et.
        injection Hstep as <-. eexists i, _. split; [auto|].
        split; [intros []|reflexivity].
Qed.

(** Without a granted camera no timer starts. *)
Lemma timers_step e s s' :
  ~ camera_granted e -> step e s = Some s' ->
  forall id, id ∈ timers s' -> id ∈ timers s.
Proof.
  intros Hng Hstep.
  destruct (start_step_cases e s s' Hstep)
    as [Hout|[(-> & _ & ->)|[(-> & _ & ->)|[(i & -> & _ & ->)
       |[(i & msg & _ & _ & ->)|[(i & strm & -> & _)|(i & strm & -> & _)]]]]]];
    try (now destruct Hng); auto.
  now destruct (outside_start_frame e s s' Hout Hstep) as (_ & _ & ?).
Qed.

Lemma timers_run events s s' :
  Forall (fun e => ~ camera_granted e) events -> run events s = Some s' ->
  forall id, id ∈ timers s' -> id ∈ timers s.
Proof.
  intros Hev Hrun.
  apply (run_invariant (fun e => ~ camera_granted e)
           (fun s' => forall id, id ∈ timers s' -> id ∈ timers s))
    with events s; auto.
  intros e sa sb He IH Hs id Hid. eapply IH, timers_step; eauto.
Qed.

(** The initializing flag is up only while some [start] is setting up. *)
Lemma flag_needs_setup_step e s s' :
  (isInitializing s = true -> (0 < setups (tasks s))%nat) ->
  step e s = Some s' ->
  isInitializing s' = true -> (0 < setups (tasks s'))%nat.
Proof.
  intros IH Hstep.
  destruct (start_step_cases e s s' Hstep)
    as [Hout|[(-> & _ & ->)|[(-> & _ & ->)|[(i & -> & Et & ->)
       |[(i & msg & _ & _ & ->)|[(i & strm & -> & _ & _ & ->)
                                |(i & strm & -> & _ & _ & ->)]]]]]];
    try discriminate.
  - destruct (outside_start_frame e s s' Hout Hstep) as (-> & -> & _).
    exact IH.
  - exact IH.
  - intros _. cbn [tasks set_tasks]. rewrite setups_app. simpl. lia.
  - intros _. cbn [tasks set_tasks]. rewrite setups_app. simpl. lia.
Qed.

Lemma flag_needs_setup s :
  reachable s -> isInitializing s = true -> (0 < setups (tasks s))%nat.
Proof.
  intros (v & events & Hrun).
  apply (run_invariant (fun _ => True)
           (fun s => isInitializing s = true -> (0 < setups (tasks s))%nat))
    with events (init v); auto.
  - intros e sa sb _ IH Hs. eapply flag_needs_setup_step; eauto.
  - now apply Forall_forall.
  - discriminate.
Qed.

(** With one [start] at a time the flag is up exactly while it sets up. *)
Lemma setups_flag_step e s s' :
  setups (tasks s) = Nat.b2n (isInitializing s) ->
  (e = EvStart -> setups (tasks s) = 0%nat) ->
  step e s = Some s' ->
  setups (tasks s') = Nat.b2n (isInitializing s').
Proof.
  intros IH Hone Hstep.
  assert (Hdel : forall i,
            tasks s !! i = Some AwaitModels \/ tasks s !! i = Some AwaitUserMedia ->
            isInitializing s = true /\ setups (delete i (tasks s)) = 0%nat).
  { intros i [Et|Et];
      rewrite (setups_delete_setup _ i _ Et) in IH by auto;
      destruct (isInitializing s); simpl in IH; split; auto; lia. }
  destruct (start_step_cases e s s' Hstep)
    as [Hout|[(-> & _ & ->)|[(-> & _ & ->)|[(i & -> & Et & ->)
       |[(i & msg & Et & _ & ->)|[(i & strm & -> & Et & _ & ->)
                                 |(i & strm & -> & Et & _ & ->)]]]]]].
  - destruct (outside_start_frame e s s' Hout Hstep) as (-> & -> & _).
    exact IH.
  - exact IH.
  - cbn [tasks set_tasks log isInitializing set_error set_isInitializing].
    rewrite setups_app, Hone by reflexivity. reflexivity.
  - destruct (Hdel i (or_introl Et)) as [Hf H0].
    cbn [tasks set_tasks log isInitializing]. rewrite setups_app, H0, Hf.
    reflexivity.
  - destruct (Hdel i Et) as [_ H0]. exact H0.
  - destruct (Hdel i (or_intror Et)) as [_ H0]. exact H0.
  - destruct (Hdel i (or_intror Et)) as [_ H0]. exact H0.
Qed.

Lemma setups_flag_run events s s' :
  setups (tasks s) = Nat.b2n (isInitializing s) ->
  one_start_at_a_time events s -> run events s = Some s' ->
  setups (tasks s') = Nat.b2n (isInitializing s').
Proof.
  revert s. induction events as [|e events IH]; intros s Hs Hone Hrun.
  - now injection Hrun as <-.
  - cbn [run] in Hrun. cbn [one_start_at_a_time] in Hone.
    destruct Hone as [H1 Hrest].
    destruct (step e s) as [s1|] eqn:E1; [|discriminate].
    eapply IH; [|exact Hrest|exact Hrun].
    eapply setups_flag_step; eauto.
Qed.

Lemma split_comma_no_comma a : no_comma a = true -> split_comma a = [a].
Proof.
  induction a as [|c a IH]; simpl; [reflexivity|]. intros H.
  apply andb_true_iff in H as [Hc Ha]. apply negb_true_iff in Hc.
  now rewrite Hc, (IH Ha).
Qed.

Lemma append_cons c (a b : string) : String c a +:+ b = String c (a +:+ b).
Proof. reflexivity. Qed.

Lemma split_comma_app a b :
  no_comma a = true ->
  split_comma (a +:+ String ","%char b) = a :: split_comma b.
Proof.
  induction a as [|c a IH]; [reflexivity|]. rewrite append_cons. simpl.
  intros H. apply andb_true_iff in H as [Hc Ha]. apply negb_true_iff in Hc.
  now rewrite Hc, (IH Ha).
Qed.

Lemma split_comma_pieces s :
  Forall (fun piece => no_comma piece = true) (split_comma s).
Proof.
  induction s as [|c s IH]; simpl; [repeat constructor|].
  destruct (Ascii.eqb c ","%char) eqn:Ec; [now constructor|].
  destruct (split_comma s) as [|piece pieces]; [repeat constructor|].
  - simpl. now rewrite Ec.
  - inversion IH as [|? ? Hp Hps]; subst. constructor; [|exact Hps].
    simpl. now rewrite Ec.
Qed.

Lemma append_empty_r (a : string) : a +:+ "" = a.
Proof.
  induction a as [|c a IH]; [reflexivity|]. rewrite append_cons. now f_equal.
Qed.

(** What [encode_frame] lets through is a piece of the URL, not empty. *)
Lemma encode_frame_image frame imageBase64 :
  encode_frame frame = Fulfilled imageBase64 ->
  imageBase64 <> "" /\ no_comma imageBase64 = true.
Proof.
  unfold encode_frame. destruct frame as [dataURL|e]; [|discriminate].
  destruct (split_comma dataURL !! 1%nat) as [piece|] eqn:Ep; [|discriminate].
  destruct (String.eqb_spec piece ""); [discriminate|]. intros [= <-].
  split; [assumption|].
  pose proof (split_comma_pieces dataURL) as Hall.
  rewrite Forall_lookup in Hall. exact (Hall _ _ Ep).
Qed.

(** A [fetch] made by a step carries an image that [encode_frame] let
    through. *)
Lemma fetch_origin_image e s s' req :
  step e s = Some s' -> Fetch req ∈ trace s' ->
  Fetch req ∈ trace s
  \/ exists frame imageBase64,
       encode_frame frame = Fulfilled imageBase64
       /\ req = request_sent imageBase64 s.
Proof.
  intros Hstep Hin. destruct e as [| | |opts|v|id|i r]; simpl in Hstep.
  - injection Hstep as <-. left. revert Hin. neutral; no_fetch.
  - injection Hstep as <-. left. revert Hin. neutral; no_fetch.
  - injection Hstep as <-. now left.
  - injection Hstep as <-. now left.
  - injection Hstep as <-. now left.
  - case_bool_decide; [|discriminate]. injection Hstep as <-.
    left. revert Hin. neutral; no_fetch.
  - destruct (tasks s !! i) as [t|] eqn:Et; [|discriminate].
    set (s0 := set_tasks (delete i (tasks s)) s) in *.
    destruct t, r; try discriminate; injection Hstep as <-.
    + left. revert Hin. subst s0. neutral; no_fetch.
    + left. revert Hin. subst s0. neutral; no_fetch.
    + destruct detections as [n|e]; [|now left].
      revert Hin.
      destruct (tick_cases n frame s0)
        as [(Hq & E)|[(Hq & Ev & E)|[(q & img & Hq & Eq & Hv & Ef & E)
                                    |(q & e & Hq & Eq & Hv & Ef & E)]]];
        rewrite E; simpl.
      * auto.
      * intros H. left. revert H. no_fetch.
      * intros H. apply elem_of_app in H as [H|H].
        -- left. revert H. no_fetch.
        -- right. apply list_elem_of_singleton in H. injection H as ->.
           now exists frame, img.
      * match goal with |- context [settle q ?o ?s1] =>
          destruct (settle_frame q o s1) as (_ & _ & _ & F4 & _)
        end.
        rewrite F4. simpl. intros H. left. revert H. no_fetch.
    + left. revert Hin. rewrite reply_settles. simpl.
      destruct (ApiClient.post_then response);
        match goal with |- context [settle completer ?o ?s1] =>
          destruct (settle_frame completer o s1) as (_ & _ & _ & F4 & _)
        end; now rewrite F4.
Qed.

Lemma stop_leaves s :
  error (stop s) = error s /\ isInitializing (stop s) = isInitializing s
  /\ nextTimer (stop s) = nextTimer s.
Proof. stop_cases s; vm_compute; repeat split. Qed.

(** How a step can change the error channel: not at all, to a message, or,
    when it is [start] with the video element there, to empty. *)
Lemma error_step e s s' :
  step e s = Some s' ->
  error s' = error s \/ is_Some (error s')
  \/ (e = EvStart /\ is_Some (videoRef s) /\ error s' = None).
Proof.
  intros Hstep.
  destruct (start_step_cases e s s' Hstep)
    as [Hout|[(-> & _ & ->)|[(-> & Hv & ->)|[(i & -> & _ & ->)
       |[(i & msg & _ & _ & ->)|[(i & strm & -> & _ & _ & ->)
                                |(i & strm & -> & _ & _ & ->)]]]]]];
    simpl; eauto 10.
  destruct e as [| | |opts|v|id|i r]; try (now destruct Hout).
  - injection Hstep as <-. left. apply stop_leaves.
  - injection Hstep as <-. now left.
  - injection Hstep as <-. now left.
  - injection Hstep as <-. now left.
  - unfold step, runDetection in Hstep.
    case_bool_decide; [|discriminate]. injection Hstep as <-.
    left. now destruct (videoRef s).
  - destruct Hout as [Ho1 Ho2].
    destruct (tasks s !! i) as [t|] eqn:Et;
      [|unfold step in Hstep; rewrite Et in Hstep; discriminate].
    destruct t; try congruence.
    + destruct r as [loaded|media|[n|e] frame|response];
        try (unfold step in Hstep; rewrite Et in Hstep; discriminate).
      * destruct (detect_reply_cases s i n frame Et)
          as (s'' & acts & Hs & _ & _ & _ & _ & Hc).
        rewrite Hs in Hstep. injection Hstep as <-.
        destruct Hc as [(_ & _ & _ & _ & _ & _ & ->)
          |[(_ & _ & _ & _ & ->)
           |[(p & img & _ & _ & _ & _ & _ & _ & _ & _ & ->)
            |(p & e & _ & _ & _ & _ & _ & _ & _ & _ & ->)]]];
          try (now left).
        destruct (capture_rejected_fields p e
                    (set_tasks (delete i (tasks s)) s))
          as (_ & _ & _ & _ & _ & F6 & _).
        right. left. rewrite F6. eauto.
      * unfold step in Hstep. rewrite Et in Hstep. injection Hstep as <-.
        now left.
    + destruct r as [loaded|media|d frame|response];
        try (unfold step in Hstep; rewrite Et in Hstep; discriminate).
      unfold step in Hstep. rewrite Et, reply_settles in Hstep.
      injection Hstep as <-. cbn [spawn].
      destruct (ApiClient.post_then response);
        match goal with |- context [settle completer ?o ?s1] =>
          destruct (settled_fields false completer o s1)
            as (_ & _ & _ & _ & _ & F6 & _)
        end; rewrite F6; simpl; eauto.
Qed.

(** ** The claims *)

(** C1.  In every reachable state at most one capture-and-send is in
    flight, and one is in flight exactly while the busy flag is set.
    [_capturePhoto] clears the armed request before it parks at its first
    [await].  A poll tick that fires, or whose detection completes, while a
    send is in flight starts no second send: it makes no call and settles no
    promise, and the completed detection still records whether a face was
    seen. *)
Theorem C1_one_send_in_flight (s : state) :
  reachable s ->
  (length (sends (tasks s)) <= 1)%nat
  /\ (isLoading s = true <-> length (sends (tasks s)) = 1%nat)
  /\ (forall frame t s',
        _capturePhoto frame s = (Parked t, s') ->
        captureCompleter s' = None
        /\ exists c, t = AwaitSend c /\ captureCompleter s = Some c)
  /\ (forall id s',
        step (EvTick id) s = Some s' ->
        sends (tasks s') = sends (tasks s) /\ promises s' = promises s)
  /\ (forall i n frame,
        sends (tasks s) <> [] -> tasks s !! i = Some AwaitDetect ->
        exists s',
          step (EvResume i (DetectReply (Fulfilled n) frame)) s = Some s'
          /\ faceDetected s' = (0 <? n)%nat
          /\ sends (tasks s') = sends (tasks s)
          /\ trace s' = trace s /\ promises s' = promises s).
Proof.
  intros Hreach. pose proof (wf_reachable s Hreach) as Hwf.
  pose proof (wf_busy s Hwf) as Hb.
  split; [|split; [|split; [|split]]].
  - rewrite Hb. destruct (isLoading s); simpl; lia.
  - rewrite Hb. destruct (isLoading s); simpl; split; congruence.
  - intros frame t s' H. unfold _capturePhoto, try_catch_finally in H.
    destruct (videoRef s); [|discriminate].
    destruct (captureCompleter s) as [c|]; [|discriminate].
    destruct (encode_frame frame); simpl in H; [|discriminate].
    injection H as <- <-. simpl. eauto.
  - intros id s' H. simpl in H. case_bool_decide; [|discriminate].
    injection H as <-. split; neutral.
  - intros i n frame Hne Et. unfold step. rewrite Et.
    assert (El : isLoading s = true).
    { destruct (isLoading s); auto. simpl in Hb.
      apply length_zero_iff_nil in Hb. contradiction. }
    rewrite tick_idle by (intros (_ & _ & ?); simpl in *; congruence).
    eexists. split; [reflexivity|]. simpl. repeat split.
    eapply sends_delete_other; eauto.
Qed.

(** C2.  From any reachable state in which a detection is pending, the video
    element is there and no send is in flight: the caller arms a request
    ([loginWithFace] or [signupWithFace]) and gets promise [p]; the
    detection completes with a face and an encodable frame; the Auth Service
    answers 2xx with a body that parses to [responseData].  Then [p] is
    fulfilled with [responseData] itself.  The three steps also hold one by
    one in every reachable state, so other events may come in between:
    arming makes [p] the pending armed completer, a qualifying detection
    parks a send for the armed completer, and a successful reply to a parked
    send fulfils its completer with the parsed body. *)
Theorem C2_resolves_with_the_response (s : state) :
  reachable s ->
  (forall r i n frame imageBase64 resp responseData,
     tasks s !! i = Some AwaitDetect -> is_Some (videoRef s) ->
     isLoading s = false -> (0 < n)%nat ->
     encode_frame frame = Fulfilled imageBase64 ->
     ApiClient.ok resp = true ->
     ApiClient.json_body resp = Fulfilled responseData ->
     exists s',
       run [EvArm r; EvResume i (DetectReply (Fulfilled n) frame);
            EvResume (length (tasks s) - 1) (FetchReply (Fulfilled resp))] s
       = Some s'
       /\ promises s' !! fst (arm r s) = Some (Some (Fulfilled responseData)))
  /\ (forall r,
        step (EvArm r) s = Some (snd (arm r s))
        /\ captureCompleter (snd (arm r s)) = Some (fst (arm r s))
        /\ promises (snd (arm r s)) !! fst (arm r s) = Some None)
  /\ (forall p i n frame imageBase64,
        captureCompleter s = Some p -> tasks s !! i = Some AwaitDetect ->
        is_Some (videoRef s) -> isLoading s = false -> (0 < n)%nat ->
        encode_frame frame = Fulfilled imageBase64 ->
        exists s',
          step (EvResume i (DetectReply (Fulfilled n) frame)) s = Some s'
          /\ tasks s' = delete i (tasks s) ++ [AwaitSend p]
          /\ promises s' !! p = Some None)
  /\ (forall p j resp responseData,
        tasks s !! j = Some (AwaitSend p) ->
        ApiClient.ok resp = true ->
        ApiClient.json_body resp = Fulfilled responseData ->
        exists s',
          step (EvResume j (FetchReply (Fulfilled resp))) s = Some s'
          /\ promises s' !! p = Some (Some (Fulfilled responseData))).
Proof.
  intros Hreach. pose proof (wf_reachable s Hreach) as Hwf.
  assert (Harm : forall r,
            step (EvArm r) s = Some (snd (arm r s))
            /\ captureCompleter (snd (arm r s)) = Some (fst (arm r s))
            /\ promises (snd (arm r s)) !! fst (arm r s) = Some None).
  { intros r. split; [apply step_arm|]. rewrite arm_eq. simpl.
    split; [reflexivity|]. now apply list_lookup_middle. }
  assert (Htick : forall s p i n frame imageBase64,
            wf s ->
            captureCompleter s = Some p -> tasks s !! i = Some AwaitDetect ->
            is_Some (videoRef s) -> isLoading s = false -> (0 < n)%nat ->
            encode_frame frame = Fulfilled imageBase64 ->
            exists s',
              step (EvResume i (DetectReply (Fulfilled n) frame)) s = Some s'
              /\ tasks s' = delete i (tasks s) ++ [AwaitSend p]
              /\ promises s' !! p = Some None).
  { intros s0 p i n frame img Hwf0 Ep Et Hv El Hn Ef.
    eexists. split; [eapply step_tick_sends; eauto|]. simpl.
    split; [reflexivity|]. now apply (wf_armed s0 Hwf0). }
  assert (Hreply : forall s p j resp responseData,
            wf s ->
            tasks s !! j = Some (AwaitSend p) ->
            ApiClient.ok resp = true ->
            ApiClient.json_body resp = Fulfilled responseData ->
            exists s',
              step (EvResume j (FetchReply (Fulfilled resp))) s = Some s'
              /\ promises s' !! p = Some (Some (Fulfilled responseData))).
  { intros s0 p j resp data Hwf0 Et Hok Hb.
    destruct (step_reply s0 j p (Fulfilled resp) Hwf0 Et)
      as (s' & Hs & _ & _ & _ & _ & _ & Hp).
    rewrite (post_then_ok _ _ Hok Hb) in Hp. exists s'. tauto. }
  split; [|split; [exact Harm|split; [intros; eapply Htick; eauto
                                     |intros; eapply Hreply; eauto]]].
  intros r i n frame img resp data Et Hv El Hn Ef Hok Hb.
  destruct (Harm r) as (H1 & Hc & Hp).
  pose proof (wf_arm r s Hwf) as Hwf1.
  set (p := fst (arm r s)) in *. set (s1 := snd (arm r s)) in *.
  assert (Et1 : tasks s1 !! i = Some AwaitDetect).
  { subst s1. rewrite arm_eq. exact Et. }
  assert (Hv1 : is_Some (videoRef s1)) by (subst s1; rewrite arm_eq; exact Hv).
  assert (El1 : isLoading s1 = false) by (subst s1; rewrite arm_eq; exact El).
  destruct (Htick s1 p i n frame img Hwf1 Hc Et1 Hv1 El1 Hn Ef)
    as (s2 & H2 & Ht2 & _).
  pose proof (wf_step _ _ _ Hwf1 H2) as Hwf2.
  assert (Et2 : tasks s2 !! (length (tasks s) - 1)%nat = Some (AwaitSend p)).
  { rewrite Ht2. apply list_lookup_middle.
    pose proof (lookup_lt_Some _ _ _ Et1) as Hlt.
    rewrite length_delete by eauto.
    subst s1. rewrite arm_eq. reflexivity. }
  destruct (Hreply s2 p _ resp data Hwf2 Et2 Hok Hb) as (s3 & H3 & Hp3).
  exists s3. split; [|exact Hp3].
  cbn [run]. rewrite H1, H2, H3. reflexivity.
Qed.

(** C3 (amended).  Every non-2xx reply to a send in flight rejects the
    caller's promise and lowers the busy flag, and the error channel holds
    the message of the error the promise is rejected with, unless that is
    empty.  When the body parses as JSON to a value other than [null], the
    error is the one [post] throws: an [Error] whose message is the body's
    detail when that is there and truthy, as [new Error] converts it to a
    string, and the generic message otherwise.  So a detail that is a
    non-empty string is the message and the error channel as it stands; an
    absent or falsy detail gives the generic message in both places; any
    other detail that converts to a string gives an [Error] with that
    string (a number as JavaScript prints it, an object as
    [[object Object]]); and a detail that cannot be converted (an object
    with a property named [toString]) rejects the promise with the
    [TypeError] of the conversion.  When the body is [null], the promise is rejected with
    the [TypeError] of reading its detail, and when the body is not JSON,
    with the error of the parser. *)
Theorem C3_api_error_rejects (s : state) :
  reachable s ->
  forall p j resp,
    tasks s !! j = Some (AwaitSend p) ->
    ApiClient.ok resp = false ->
    exists s',
      step (EvResume j (FetchReply (Fulfilled resp))) s = Some s'
      /\ isLoading s' = false
      /\ (exists e,
            promises s' !! p = Some (Some (Rejected e))
            /\ error s' = Some (or_else (message e) unexpected_capture_error))
      /\ (forall responseData,
            ApiClient.json_body resp = Fulfilled responseData ->
            responseData <> JNull ->
            promises s' !! p =
            Some (Some (Rejected (api_error responseData)))
            /\ error s' =
               Some (or_else (message (api_error responseData))
                       unexpected_capture_error)
            /\ (forall d,
                  detail_of responseData = Some (JStr d) -> d <> "" ->
                  promises s' !! p = Some (Some (Rejected (Error d)))
                  /\ error s' = Some d)
            /\ (detail_of responseData = None
                \/ (exists d,
                      detail_of responseData = Some d /\ truthy d = false) ->
                promises s' !! p =
                Some (Some (Rejected (Error ApiClient.unknown_api_error)))
                /\ error s' = Some ApiClient.unknown_api_error)
            /\ (forall d msg,
                  detail_of responseData = Some d -> truthy d = true ->
                  to_string d = Fulfilled msg ->
                  promises s' !! p = Some (Some (Rejected (Error msg)))
                  /\ error s' = Some (or_else msg unexpected_capture_error))
            /\ (forall d e,
                  detail_of responseData = Some d ->
                  to_string d = Rejected e ->
                  promises s' !! p = Some (Some (Rejected e))
                  /\ error s' =
                     Some (or_else (message e) unexpected_capture_error)
                  /\ name e = "TypeError")
            /\ (forall n,
                  detail_of responseData = Some (JNum n) ->
                  number_truthy n = true ->
                  promises s' !! p =
                  Some (Some (Rejected (Error (number_to_string n)))))
            /\ (forall props,
                  detail_of responseData = Some (JObj props) ->
                  (assoc "toString" props = None ->
                   promises s' !! p =
                   Some (Some (Rejected (Error "[object Object]")))
                   /\ error s' = Some "[object Object]")
                  /\ (is_Some (assoc "toString" props) ->
                      promises s' !! p =
                      Some (Some (Rejected
                                    (TypeError "Cannot convert object to primitive value")))
                      /\ error s' =
                         Some "Cannot convert object to primitive value")))
      /\ (ApiClient.json_body resp = Fulfilled JNull ->
          promises s' !! p =
          Some (Some (Rejected
                        (TypeError "Cannot read properties of null (reading 'detail')")))
          /\ error s' = Some "Cannot read properties of null (reading 'detail')")
      /\ (forall e,
            ApiClient.json_body resp = Rejected e ->
            promises s' !! p = Some (Some (Rejected e))
            /\ error s' = Some (or_else (message e) unexpected_capture_error)).
Proof.
  intros Hreach p j resp Et Hok.
  pose proof (wf_reachable s Hreach) as Hwf.
  destruct (step_reply s j p (Fulfilled resp) Hwf Et)
    as (s' & Hs & El & _ & _ & _ & _ & Hp).
  exists s'. split; [exact Hs|]. split; [exact El|]. clear Hs El.
  split; [|split; [|split]].
  - destruct (ApiClient.json_body resp) as [data|e] eqn:Hb.
    + destruct data;
        try (rewrite (post_then_error _ _ Hok Hb) in Hp by discriminate;
             eauto).
      rewrite (post_then_null _ Hok Hb) in Hp. eauto.
    + rewrite (post_then_not_json _ _ Hb) in Hp. eauto.
  - intros data Hb Hnull.
    rewrite (post_then_error _ _ Hok Hb Hnull) in Hp.
    destruct Hp as [Hp He].
    split; [exact Hp|]. split; [exact He|]. rewrite Hp, He. clear Hp He.
    unfold api_error. split; [|split; [|split; [|split; [|split]]]].
    + intros d Hd Hne. rewrite Hd. simpl.
      destruct (String.eqb_spec d ""); [congruence|]. simpl.
      now rewrite or_else_nonempty.
    + intros [Hd|(d & Hd & Ht)]; rewrite Hd; [|rewrite Ht]; split; reflexivity.
    + intros d msg Hd Ht Hm. rewrite Hd, Ht, Hm. split; reflexivity.
    + intros d e Hd He. rewrite Hd, He.
      assert (Ht : truthy d = true /\ name e = "TypeError").
      { clear - He. destruct d as [|[]| | |items|props]; try discriminate.
        - split; [reflexivity|]. now rewrite (to_string_throws _ _ He).
        - split; [reflexivity|]. now rewrite (to_string_throws _ _ He). }
      destruct Ht as [-> Hn]. repeat split; auto.
    + intros n Hd Ht. rewrite Hd. simpl. now rewrite Ht.
    + intros props Hd. rewrite Hd. simpl. split.
      * intros ->. split; reflexivity.
      * intros [v ->]. split; reflexivity.
  - intros Hb. rewrite (post_then_null _ Hok Hb) in Hp. exact Hp.
  - intros e Hb. rewrite (post_then_not_json _ _ Hb) in Hp. exact Hp.
Qed.

(** C4 (amended).  Only a running timer ticks.  A tick that finds the video
    element asks the detector and waits for its answer; a tick that finds
    none returns at once and changes nothing.  When the detector answers a
    pending tick, the face-detected flag becomes whether it saw a face, and
    capture-and-send is called exactly when, at that moment, a request is
    armed, a face was seen and the busy flag is down.  When it is called
    and the video element is there, the request is disarmed and the frame
    is either sent or, if it cannot be encoded, the caller's promise is
    rejected; when the element is gone the call returns at its guard.  When
    it is not called, the answer changes the face-detected flag only; in
    particular, with no face seen the flag becomes false, the armed request
    stays in place and nothing is sent.  The same holds of a tick and its
    answer taken together.  When the detector fails, the tick ends there and
    nothing changes. *)
Theorem C4_tick_captures_iff_qualifying (s : state) :
  (forall id,
     (id ∉ timers s -> step (EvTick id) s = None)
     /\ (id ∈ timers s -> videoRef s = None -> step (EvTick id) s = Some s)
     /\ (id ∈ timers s -> is_Some (videoRef s) ->
         step (EvTick id) s =
         Some (set_tasks (tasks s ++ [AwaitDetect]) (log DetectAllFaces s))))
  /\ (forall i n frame,
        tasks s !! i = Some AwaitDetect ->
        exists s',
          step (EvResume i (DetectReply (Fulfilled n) frame)) s = Some s'
          /\ faceDetected s' = (0 <? n)%nat
          /\ (CapturePhoto ∈ calls_since s s' <-> qualifies n s)
          /\ (qualifies n s -> is_Some (videoRef s) ->
              captureCompleter s' = None
              /\ ((exists imageBase64,
                     encode_frame frame = Fulfilled imageBase64
                     /\ calls_since s s' =
                        [CapturePhoto; Fetch (request_sent imageBase64 s)]
                     /\ isLoading s' = true
                     /\ exists p,
                          captureCompleter s = Some p
                          /\ tasks s' = delete i (tasks s) ++ [AwaitSend p])
                  \/ (exists e,
                        encode_frame frame = Rejected e
                        /\ calls_since s s' = [CapturePhoto]
                        /\ isLoading s' = false
                        /\ exists p,
                             captureCompleter s = Some p
                             /\ s' = set_isLoading false
                                       (settle p (Rejected e)
                                          (set_error
                                             (Some (or_else (message e)
                                                      unexpected_capture_error))
                                             (capture_begun
                                                (set_tasks
                                                   (delete i (tasks s)) s)))))))
          /\ (qualifies n s -> videoRef s = None ->
              s' = log CapturePhoto
                     (set_faceDetected true
                        (set_tasks (delete i (tasks s)) s)))
          /\ (~ qualifies n s ->
              s' = set_faceDetected (0 <? n)%nat
                     (set_tasks (delete i (tasks s)) s))
          /\ (n = 0%nat ->
              faceDetected s' = false
              /\ captureCompleter s' = captureCompleter s
              /\ calls_since s s' = [] /\ promises s' = promises s
              /\ tasks s' = delete i (tasks s)))
  /\ (forall id n frame,
        id ∈ timers s -> is_Some (videoRef s) ->
        exists s',
          run [EvTick id;
               EvResume (length (tasks s)) (DetectReply (Fulfilled n) frame)] s
          = Some s'
          /\ faceDetected s' = (0 <? n)%nat
          /\ (CapturePhoto ∈ calls_since s s' <-> qualifies n s)
          /\ (forall imageBase64,
                qualifies n s -> encode_frame frame = Fulfilled imageBase64 ->
                calls_since s s' =
                [DetectAllFaces; CapturePhoto;
                 Fetch (request_sent imageBase64 s)]
                /\ captureCompleter s' = None /\ isLoading s' = true
                /\ exists p,
                     captureCompleter s = Some p
                     /\ tasks s' = tasks s ++ [AwaitSend p])
          /\ (n = 0%nat ->
              faceDetected s' = false
              /\ captureCompleter s' = captureCompleter s
              /\ calls_since s s' = [DetectAllFaces]
              /\ promises s' = promises s /\ tasks s' = tasks s))
  /\ (forall i e frame,
        tasks s !! i = Some AwaitDetect ->
        step (EvResume i (DetectReply (Rejected e) frame)) s =
        Some (set_tasks (delete i (tasks s)) s)).
Proof.
  split; [|split; [|split]]; cycle 3.
  { intros i e frame Et. unfold step. rewrite Et. reflexivity. }
  - intros id. split; [apply step_tick_stopped|].
    split; [apply step_tick_no_video|apply step_tick_video].
  - intros i n frame Et.
    destruct (detect_reply_cases s i n frame Et)
      as (s' & acts & Hs & Htr & Hf & _ & _ & Hc).
    exists s'. split; [exact Hs|]. split; [exact Hf|].
    rewrite (calls_since_app _ _ _ Htr). clear Hs Htr.
    destruct Hc as [(Hq & -> & Hc & Hl & Hp & Ht & Hs')
      |[(Hq & Ev & -> & Ht & Hs')
       |[(p & img & Hq & Ep & Hv & Ef & -> & Hc & Hl & Ht & Hs')
        |(p & e & Hq & Ep & Hv & Ef & -> & Hc & Hl & Ht & Hs')]]].
    + split; [split; [intros H; inversion H|tauto]|].
      split; [tauto|]. split; [tauto|]. split; [intros _; exact Hs'|].
      intros ->. rewrite Hf. auto.
    + split; [split; [auto|intros _; apply list_elem_of_here]|].
      split; [intros _ [v Hv]; congruence|]. split; [intros _ _; exact Hs'|].
      split; [tauto|]. intros ->. destruct Hq as (_ & Hn & _). lia.
    + split; [split; [auto|intros _; apply list_elem_of_here]|].
      split; [intros _ _; split; [exact Hc|]; left; exists img;
              split; [exact Ef|]; split; [reflexivity|]; split; [exact Hl|];
              exists p; split; [exact Ep|exact Ht]|].
      split; [intros _ Ev; destruct Hv; congruence|].
      split; [tauto|]. intros ->. destruct Hq as (_ & Hn & _). lia.
    + split; [split; [auto|intros _; apply list_elem_of_here]|].
      split; [intros _ _; split; [exact Hc|]; right; exists e;
              split; [exact Ef|]; split; [reflexivity|]; split; [exact Hl|];
              exists p; split; [exact Ep|exact Hs']|].
      split; [intros _ Ev; destruct Hv; congruence|].
      split; [tauto|]. intros ->. destruct Hq as (_ & Hn & _). lia.
  - intros id n frame Hid Hv.
    pose proof (step_tick_video id s Hid Hv) as Htick.
    set (s1 := set_tasks (tasks s ++ [AwaitDetect]) (log DetectAllFaces s))
      in Htick.
    assert (Et : tasks s1 !! length (tasks s) = Some AwaitDetect)
      by (apply list_lookup_middle; reflexivity).
    assert (Hdel : delete (length (tasks s)) (tasks s1) = tasks s)
      by (subst s1; cbn [tasks set_tasks]; rewrite delete_middle;
          apply app_nil_r).
    assert (Hq1 : qualifies n s1 <-> qualifies n s) by reflexivity.
    assert (Hv1 : videoRef s1 = videoRef s) by reflexivity.
    assert (Hc1 : captureCompleter s1 = captureCompleter s) by reflexivity.
    assert (Hp1 : promises s1 = promises s) by reflexivity.
    assert (Hr1 : forall img, request_sent img s1 = request_sent img s)
      by reflexivity.
    assert (Ht1 : trace s1 = trace s ++ [DetectAllFaces]) by reflexivity.
    destruct (detect_reply_cases s1 _ n frame Et)
      as (s' & acts & Hs & Htr & Hf & _ & _ & Hc).
    clearbody s1. exists s'.
    split; [cbn [run]; rewrite Htick, Hs; reflexivity|].
    split; [exact Hf|].
    assert (Hcalls : calls_since s s' = DetectAllFaces :: acts).
    { apply calls_since_app. rewrite Htr, Ht1. now rewrite <- app_assoc. }
    rewrite Hcalls. clear Hs Htr Hcalls Et Htick Ht1.
    assert (Hin : forall rest,
              CapturePhoto ∈ DetectAllFaces :: rest <-> CapturePhoto ∈ rest).
    { intros rest. rewrite elem_of_cons. split; [intros [?|?]|]; auto.
      discriminate. }
    rewrite Hin. rewrite Hdel, Hv1, Hc1, Hp1 in Hc.
    destruct Hc as [(Hq & -> & Hc & Hl & Hp & Ht & Hs')
      |[(Hq & Ev & -> & Ht & Hs')
       |[(p & img & Hq & Ep & Hv2 & Ef & -> & Hc & Hl & Ht & Hs')
        |(p & e & Hq & Ep & Hv2 & Ef & -> & Hc & Hl & Ht & Hs')]]];
      rewrite Hq1 in Hq.
    + split; [split; [intros H; inversion H|tauto]|].
      split; [tauto|]. intros ->. rewrite Hf. auto.
    + destruct Hv as [v Hv]. congruence.
    + split; [split; [auto|intros _; apply list_elem_of_here]|].
      split; [|intros ->; destruct Hq as (_ & Hn & _); lia].
      intros img' _ Ef'. assert (img' = img) as -> by congruence.
      rewrite Hr1. split; [reflexivity|]. split; [exact Hc|].
      split; [exact Hl|]. exists p. split; [exact Ep|exact Ht].
    + split; [split; [auto|intros _; apply list_elem_of_here]|].
      split; [intros img' _ Ef'; congruence
             |intros ->; destruct Hq as (_ & Hn & _); lia].
Qed.

(** C5.  Whenever a request is armed and a second one is made (straight
    after the first, or after any events that did not capture it: ticks,
    detections without a face, [stop], ...): the promises are distinct, the
    first is still pending, and the armed completer, the mode and the
    custom fields are those of the second request.  As long as nobody arms
    again, the next qualifying detection sends what the second request
    describes and parks the send for the second promise.  The first promise
    is pending after every further sequence of events: it is never settled.
    The armed completer is the promise of the request armed last: if the
    state was reached by arming a request and then events that arm none,
    it is the promise that request returned. *)
Theorem C5_second_arming_replaces_first (s : state) (p1 : nat)
    (r2 : capture_request) :
  reachable s ->
  captureCompleter s = Some p1 ->
  let p2 := fst (arm r2 s) in
  let s2 := snd (arm r2 s) in
  (forall s0 r1 between,
     Forall (fun e => ~ is_arming e) between ->
     run (EvArm r1 :: between) s0 = Some s -> p1 = fst (arm r1 s0))
  /\ promises s !! p1 = Some None
  /\ step (EvArm r2) s = Some s2
  /\ p1 <> p2
  /\ captureCompleter s2 = Some p2
  /\ captureMode s2 = request_mode r2
  /\ signupCustomFields s2 = request_fields r2
  /\ (forall events s3,
        Forall (fun e => ~ is_arming e) events -> run events s2 = Some s3 ->
        forall i n frame imageBase64,
          tasks s3 !! i = Some AwaitDetect -> qualifies n s3 ->
          is_Some (videoRef s3) ->
          encode_frame frame = Fulfilled imageBase64 ->
          exists s4,
            step (EvResume i (DetectReply (Fulfilled n) frame)) s3 = Some s4
            /\ calls_since s3 s4 =
               [CapturePhoto; Fetch (described_send r2 imageBase64)]
            /\ tasks s4 = delete i (tasks s3) ++ [AwaitSend p2])
  /\ (forall events s', run events s2 = Some s' -> promises s' !! p1 = Some None).
Proof.
  intros Hreach Hc1 p2 s2. pose proof (wf_reachable s Hreach) as Hwf.
  pose proof (wf_armed s Hwf p1 Hc1) as Hpend.
  pose proof (lookup_lt_Some _ _ _ Hpend) as Hlt.
  assert (E2 : s2 = snd (arm r2 s)) by reflexivity.
  assert (P2 : p2 = length (promises s)) by (subst p2; now rewrite arm_eq).
  rewrite arm_eq in E2. cbn [snd] in E2. clearbody s2 p2.
  split; [|split; [exact Hpend|split; [|split; [lia|split; [|split; [|split; [|split]]]]]]].
  - intros s0 r1 between Hev Hrun. cbn [run] in Hrun.
    rewrite step_arm in Hrun.
    assert (Hkept : captureCompleter s = Some (fst (arm r1 s0))
                    \/ captureCompleter s = None).
    { apply (run_invariant (fun e => ~ is_arming e)
               (fun s => captureCompleter s = Some (fst (arm r1 s0))
                         \/ captureCompleter s = None))
        with between (snd (arm r1 s0)); auto.
      - intros e sa sb He Hc Hs.
        destruct (request_kept e sa sb He Hs) as (_ & _ & Kc).
        destruct Kc as [->| ->]; auto.
      - left. rewrite !arm_eq. reflexivity. }
    destruct Hkept; congruence.
  - rewrite step_arm, arm_eq, E2. reflexivity.
  - rewrite E2, P2. reflexivity.
  - now rewrite E2.
  - now rewrite E2.
  - intros events s3 Hev Hrun i n frame img Et Hq Hv Ef.
    assert (Hkept : captureMode s3 = request_mode r2
                    /\ signupCustomFields s3 = request_fields r2
                    /\ (captureCompleter s3 = Some p2
                        \/ captureCompleter s3 = None)).
    { apply (run_invariant (fun e => ~ is_arming e)
               (fun s => captureMode s = request_mode r2
                         /\ signupCustomFields s = request_fields r2
                         /\ (captureCompleter s = Some p2
                             \/ captureCompleter s = None)))
        with events s2; auto.
      - intros e sa sb He (Hm & Hf & Hc) Hs.
        destruct (request_kept e sa sb He Hs) as (Km & Kf & Kc).
        rewrite Km, Kf. repeat split; auto.
        destruct Kc as [->| ->]; auto.
      - rewrite E2, P2. simpl. auto. }
    destruct Hkept as (Hm & Hf & Hc). pose proof Hq as ([q Eq] & Hn & El).
    assert (q = p2) as -> by (destruct Hc; congruence).
    eexists. split; [eapply step_tick_sends; eauto|]. split; [|reflexivity].
    rewrite <- (request_sent_described r2 img s3 Hm Hf).
    apply calls_since_app. simpl. now rewrite <- app_assoc.
  - intros events s' Hrun.
    assert (Hab : abandoned p1 s2).
    { rewrite E2. repeat split; simpl.
      - rewrite lookup_app_l; [exact Hpend|exact Hlt].
      - intros [= E]. lia.
      - intros Hin. destruct (wf_sends s Hwf _ Hin) as [_ Hne]. contradiction. }
    apply (run_invariant (fun _ => True) (abandoned p1)) with events s2 s'
      in Hab; auto.
    + apply Hab.
    + intros e sa sb _ Ha Hs. eapply abandoned_step; eauto.
    + now apply Forall_forall.
Qed.

(** C6.  Every [fetch] in the trace of a reachable state is the send
    described for some request and image.  A request armed in a state with no
    send in flight is sent, by a qualifying detection, as described for that
    very request.  The described send is a POST to the login or signup
    endpoint under the base URL, according to the mode; it carries the
    [X-API-KEY] header with the configured key; its body holds
    [image_base64], and [custom_fields] exactly when custom fields came with
    the request (never for a login), and nothing else. *)
Theorem C6_sends_are_as_described (s : state) :
  reachable s ->
  (forall req,
     Fetch req ∈ trace s ->
     exists r imageBase64, req = described_send r imageBase64)
  /\ (forall r i n frame imageBase64,
        tasks s !! i = Some AwaitDetect -> is_Some (videoRef s) ->
        isLoading s = false -> (0 < n)%nat ->
        encode_frame frame = Fulfilled imageBase64 ->
        exists s',
          run [EvArm r; EvResume i (DetectReply (Fulfilled n) frame)] s
          = Some s'
          /\ calls_since s s' =
             [CapturePhoto; Fetch (described_send r imageBase64)])
  /\ (forall r imageBase64,
        ApiClient.method (described_send r imageBase64) = "POST"
        /\ ApiClient.url (described_send r imageBase64) =
           default "https://api.biologreen.com/v1" (Options.baseURL options)
           +:+ match r with
               | LoginRequest => "/auth/login-face"
               | SignupRequest _ => "/auth/signup-face"
               end
        /\ ("X-API-KEY", Options.apiKey options)
           ∈ ApiClient.headers (described_send r imageBase64)
        /\ exists payload,
             ApiClient.body (described_send r imageBase64) = JObj payload
             /\ assoc "image_base64" payload = Some (JStr imageBase64)
             /\ assoc "custom_fields" payload = JObj <$> request_fields r
             /\ request_fields LoginRequest = None
             /\ forall k v,
                  (k, v) ∈ payload ->
                  k = "image_base64" \/ k = "custom_fields").
Proof.
  intros Hreach. pose proof (wf_reachable s Hreach) as Hwf.
  split; [|split].
  - destruct Hreach as (v & events & Hrun).
    apply (run_invariant (fun _ => True)
             (fun s => forall req, Fetch req ∈ trace s ->
                         exists r img, req = described_send r img))
      with events (init v); auto.
    + intros e sa sb _ IH Hs req Hin.
      destruct (fetch_origin e sa sb req Hs Hin) as [Hold|[img ->]]; auto.
      destruct (request_sent_is_described img sa) as [r ->]. eauto.
    + now apply Forall_forall.
    + intros req Hin. inversion Hin.
  - intros r i n frame img Et Hv El Hn Ef.
    set (s1 := snd (arm r s)).
    assert (E1 : s1 = snd (arm r s)) by reflexivity. rewrite arm_eq in E1.
    simpl in E1.
    assert (Hs : step (EvResume i (DetectReply (Fulfilled n) frame)) s1 =
                 Some (set_tasks (delete i (tasks s1)
                                  ++ [AwaitSend (length (promises s))])
                         (log (Fetch (request_sent img s1))
                            (capture_begun s1)))).
    { apply step_tick_sends; auto; rewrite E1; auto. }
    eexists. split; [cbn [run]; rewrite step_arm; fold s1; rewrite Hs;
                     reflexivity|].
    rewrite (request_sent_described r img s1) by (rewrite E1; reflexivity).
    apply calls_since_app. rewrite E1. simpl. now rewrite <- app_assoc.
  - intros r img. split; [reflexivity|]. split; [now destruct r|].
    split; [apply list_elem_of_further, list_elem_of_here|].
    eexists. split; [reflexivity|]. split; [reflexivity|].
    split; [now destruct (request_fields r)|]. split; [reflexivity|].
    intros k v Hin. apply elem_of_cons in Hin as [[= -> ->]|Hin]; auto.
    destruct (request_fields r); [|inversion Hin].
    apply list_elem_of_singleton in Hin as [= -> ->]. auto.
Qed.

(** C7.  Every execution of capture-and-send ends with the busy flag down.
    The segment that runs after the reply returns, never throws, and lowers
    the flag whatever the reply was; the first segment, once past its guard,
    either parks with the flag up or, when the frame cannot be encoded, ends
    with the flag down.  In a reachable state, a detection whose frame
    cannot be encoded and a reply to the send in flight (a 2xx body, an API
    error, a network failure) both leave the flag down, no send in flight and
    the caller's promise settled, and the coordinator ready: a request
    armed next is sent by the next qualifying detection. *)
Theorem C7_busy_flag_cleared (s : state) :
  reachable s ->
  (forall completer reply s0,
     fst (_capturePhoto_resume completer reply s0) = Returned
     /\ isLoading (snd (_capturePhoto_resume completer reply s0)) = false)
  /\ (forall frame s0,
        is_Some (videoRef s0) -> is_Some (captureCompleter s0) ->
        (fst (_capturePhoto frame s0) = Returned
         /\ isLoading (snd (_capturePhoto frame s0)) = false
         /\ exists e, encode_frame frame = Rejected e)
        \/ (exists p, fst (_capturePhoto frame s0) = Parked (AwaitSend p)
                      /\ isLoading (snd (_capturePhoto frame s0)) = true))
  /\ (forall i n frame e p,
        tasks s !! i = Some AwaitDetect -> captureCompleter s = Some p ->
        qualifies n s -> is_Some (videoRef s) ->
        encode_frame frame = Rejected e ->
        exists s',
          step (EvResume i (DetectReply (Fulfilled n) frame)) s = Some s'
          /\ isLoading s' = false /\ sends (tasks s') = []
          /\ promises s' !! p = Some (Some (Rejected e))
          /\ ready s')
  /\ (forall j p reply,
        tasks s !! j = Some (AwaitSend p) ->
        exists s',
          step (EvResume j (FetchReply reply)) s = Some s'
          /\ isLoading s' = false /\ sends (tasks s') = []
          /\ promises s' !! p = Some (Some (ApiClient.post_then reply))
          /\ ready s').
Proof.
  intros Hreach. pose proof (wf_reachable s Hreach) as Hwf.
  split; [|split; [|split]].
  - intros c reply s0. now rewrite reply_settles.
  - intros frame s0 [v Ev] [p Ep].
    unfold _capturePhoto, try_catch_finally. rewrite Ev, Ep.
    destruct (encode_frame frame) as [img|e]; simpl; eauto 10.
  - intros i n frame e p Et Ep Hq Hv Ef. destruct Hq as (_ & Hn & El).
    assert (Hs : step (EvResume i (DetectReply (Fulfilled n) frame)) s =
                 Some (set_isLoading false
                         (settle p (Rejected e)
                            (set_error
                               (Some (or_else (message e)
                                        unexpected_capture_error))
                               (capture_begun
                                  (set_tasks (delete i (tasks s)) s)))))).
    { destruct (detect_reply_cases s i n frame Et)
        as (s' & acts & Hs & _ & _ & _ & _ & Hc).
      rewrite Hs. f_equal.
      destruct Hc as [(Hq & _)
        |[(_ & Ev & _)
         |[(q & img & _ & _ & _ & Ef' & _)
          |(q & e' & _ & Eq & _ & Ef' & _ & _ & _ & _ & ->)]]].
      - destruct Hq. repeat split; eauto.
      - destruct Hv. congruence.
      - congruence.
      - congruence. }
    eexists. split; [exact Hs|].
    pose proof (wf_step _ _ _ Hwf Hs) as Hwf'.
    assert (El' : isLoading
                    (set_isLoading false
                       (settle p (Rejected e)
                          (set_error
                             (Some (or_else (message e)
                                      unexpected_capture_error))
                             (capture_begun
                                (set_tasks (delete i (tasks s)) s)))))
                  = false) by reflexivity.
    split; [exact El'|]. split; [now apply sends_nil_of_idle|].
    split; [|now apply idle_ready].
    apply promises_settled. exact (wf_armed s Hwf p Ep).
  - intros j p reply Et.
    destruct (step_reply s j p reply Hwf Et)
      as (s' & Hs & El & Hnil & _ & _ & _ & Hp).
    exists s'. split; [exact Hs|]. split; [exact El|]. split; [exact Hnil|].
    split; [destruct (ApiClient.post_then reply); tauto|].
    apply idle_ready; [eapply wf_step; eauto|exact El].
Qed.

(** C8 (amended).  No segment of [start] throws to the caller.  With the
    video element there, [start] raises the initializing flag, clears the
    error and parks on the model load; once the models are loaded it asks
    for the camera and parks again, the flag still up.  When the models
    fail to load, the camera is refused, or the video element is gone by
    the time the camera is granted, [start] ends with a message in the
    error channel and the flag down, and sets no timer.  When the camera is
    granted and the element is there, the stream is attached, the poll timer
    is set and the flag goes down.  Only a granted camera starts a timer:
    after any events without one, every running timer was running before,
    so a failed [start] leaves detection stopped if it was stopped.  No
    event outside [start] touches the flag; the flag is up only while some
    [start] is setting up; and as long as [start] is not called while an
    earlier call is still setting up, the flag is up exactly while one
    is. *)
Theorem C8_start_failure_is_reported :
  (forall s e, fst (start s) <> Threw e)
  /\ (forall loaded s e, fst (start_models loaded s) <> Threw e)
  /\ (forall media s e, fst (start_media media s) <> Threw e)
  /\ (forall s,
        is_Some (videoRef s) ->
        step EvStart s =
        Some (set_tasks (tasks s ++ [AwaitModels])
                (log (LoadFromUri modelPath)
                   (set_error None (set_isInitializing true s)))))
  /\ (forall s i,
        tasks s !! i = Some AwaitModels ->
        step (EvResume i (ModelsReply (Fulfilled tt))) s =
        Some (set_tasks (delete i (tasks s) ++ [AwaitUserMedia])
                (log GetUserMedia s)))
  /\ (forall s i e,
        tasks s !! i = Some AwaitModels ->
        step (EvResume i (ModelsReply (Rejected e))) s =
        Some (set_isInitializing false
                (set_error
                   (Some ("Failed to start camera: Failed to load face detection models. Please check the modelPath. Error: "
                          +:+ error_to_string e))
                   (set_tasks (delete i (tasks s)) s))))
  /\ (forall s i e,
        tasks s !! i = Some AwaitUserMedia ->
        step (EvResume i (MediaReply (Rejected e))) s =
        Some (set_isInitializing false
                (set_error (Some ("Failed to start camera: " +:+ message e))
                   (set_tasks (delete i (tasks s)) s))))
  /\ (forall s i strm,
        tasks s !! i = Some AwaitUserMedia -> videoRef s = None ->
        step (EvResume i (MediaReply (Fulfilled strm))) s =
        Some (set_isInitializing false
                (set_error
                   (Some "Failed to start camera: Cannot set properties of null (setting 'srcObject')")
                   (set_stream (Some strm)
                      (set_liveStreams (strm :: liveStreams s)
                         (set_tasks (delete i (tasks s)) s))))))
  /\ (forall s i strm,
        tasks s !! i = Some AwaitUserMedia -> is_Some (videoRef s) ->
        step (EvResume i (MediaReply (Fulfilled strm))) s =
        Some (set_isInitializing false
                (set_detectionInterval (Some (nextTimer s))
                   (log (SetInterval (nextTimer s))
                      (set_timers (nextTimer s :: timers s)
                         (Pos.succ (nextTimer s))
                         (set_videoRef (Some (mkVideo (Some strm)))
                            (set_stream (Some strm)
                               (set_liveStreams (strm :: liveStreams s)
                                  (set_tasks (delete i (tasks s)) s)))))))))
  /\ (forall events s s',
        Forall (fun e => ~ camera_granted e) events ->
        run events s = Some s' ->
        forall id, id ∈ timers s' -> id ∈ timers s)
  /\ (forall e s s',
        outside_start e s -> step e s = Some s' ->
        isInitializing s' = isInitializing s)
  /\ (forall s,
        reachable s -> isInitializing s = true ->
        (0 < setups (tasks s))%nat)
  /\ (forall v events s,
        one_start_at_a_time events (init v) ->
        run events (init v) = Some s ->
        setups (tasks s) = Nat.b2n (isInitializing s)).
Proof.
  destruct start_never_throws as (T1 & T2 & T3).
  split; [exact T1|]. split; [exact T2|]. split; [exact T3|].
  split; [exact step_start_video|]. split; [exact step_models_loaded|].
  split; [exact step_models_failed|]. split; [exact step_camera_refused|].
  split; [exact step_camera_granted_no_video|].
  split; [exact step_camera_granted|]. split; [exact timers_run|].
  split; [exact outside_start_keeps_flag|]. split; [exact flag_needs_setup|].
  intros v events s Hone Hrun.
  eapply setups_flag_run; [|exact Hone|exact Hrun]. reflexivity.
Qed.

(** C10.  With no video element in the ref, [start] returns at once and
    changes the error channel only, which now holds
    'Video element reference is not available.': no model is loaded, no
    camera is requested, no timer is set, nothing is parked, and the
    initializing flag is not written. *)
Theorem C10_start_without_video (s : state) :
  videoRef s = None ->
  start s =
  (Returned, set_error (Some "Video element reference is not available.") s)
  /\ step EvStart s =
     Some (set_error (Some "Video element reference is not available.") s)
  /\ (forall s',
        step EvStart s = Some s' ->
        error s' = Some "Video element reference is not available."
        /\ isInitializing s' = isInitializing s
        /\ calls_since s s' = []
        /\ tasks s' = tasks s /\ timers s' = timers s
        /\ detectionInterval s' = detectionInterval s
        /\ stream s' = stream s).
Proof.
  intros Ev.
  assert (E : start s =
              (Returned,
               set_error (Some "Video element reference is not available.") s))
    by (unfold start; now rewrite Ev).
  split; [exact E|]. split; [simpl; now rewrite E|].
  intros s' Hs. simpl in Hs. rewrite E in Hs. injection Hs as <-.
  repeat split. now apply calls_since_same.
Qed.

(** ** Further properties of the code *)

(** X1.  The promise of [post] is fulfilled with [v] exactly when [fetch]
    delivered a reply with a 2xx status whose body parses to [v]; the body
    is handed over as it is, [null] included. *)
Theorem X1_post_fulfils_iff (reply : outcome ApiClient.response) (v : json) :
  ApiClient.post_then reply = Fulfilled v
  <-> exists resp,
        reply = Fulfilled resp /\ ApiClient.ok resp = true
        /\ ApiClient.json_body resp = Fulfilled v.
Proof.
  split.
  - unfold ApiClient.post_then. destruct reply as [resp|e]; [|discriminate].
    destruct (ApiClient.json_body resp) as [data|e] eqn:Eb; [|discriminate].
    destruct (ApiClient.ok resp) eqn:Eok; simpl.
    + intros [= ->]. eauto.
    + destruct (ApiClient.get_detail data) as [detail|]; [|discriminate].
      match goal with |- context [to_string ?d] => destruct (to_string d) end;
        discriminate.
  - intros (resp & -> & Hok & Hb). now apply post_then_ok.
Qed.

(** X2.  Whatever makes [post] fail, the caller's promise is rejected with
    the very error [post] threw, the busy flag goes down, and the error
    channel holds the error's message, or 'An unexpected error occurred
    during capture.' when the message is empty.  [post] fails with the
    error of [fetch] when the network fails, and with the error of
    [response.json()] when the body is not JSON, whatever the status, 2xx
    included. *)
Theorem X2_failed_send_is_reported (s : state) :
  reachable s ->
  (forall p j reply e,
     tasks s !! j = Some (AwaitSend p) ->
     ApiClient.post_then reply = Rejected e ->
     exists s',
       step (EvResume j (FetchReply reply)) s = Some s'
       /\ promises s' !! p = Some (Some (Rejected e))
       /\ isLoading s' = false
       /\ error s' =
          Some (if String.eqb (message e) "" then unexpected_capture_error
                else message e))
  /\ (forall e, ApiClient.post_then (Rejected e) = Rejected e)
  /\ (forall status e,
        ApiClient.post_then
          (Fulfilled (ApiClient.mkResponse status (Rejected e)))
        = Rejected e).
Proof.
  intros Hreach. pose proof (wf_reachable s Hreach) as Hwf.
  split; [|split; reflexivity].
  intros p j reply e Et Hpost.
  destruct (step_reply s j p reply Hwf Et)
    as (s' & Hs & El & _ & _ & _ & _ & Hp).
  rewrite Hpost in Hp. destruct Hp as [Hp He].
  exists s'. auto.
Qed.

(** X3.  [_capturePhoto] takes as the image the text between the first and
    the second comma of the data URL (up to the end when there is one comma
    only), and throws 'Failed to capture image from video stream.' when that
    text is empty or the URL has no comma; an exception of the canvas is
    passed on.  So an image that is let through is never empty. *)
Theorem X3_encode_frame_takes_the_payload :
  (forall prefix imageBase64 tail,
     no_comma prefix = true -> no_comma imageBase64 = true ->
     tail = "" \/ (exists rest, tail = String ","%char rest) ->
     encode_frame (Fulfilled (prefix +:+ "," +:+ imageBase64 +:+ tail)) =
     if String.eqb imageBase64 "" then Rejected (Error capture_failed)
     else Fulfilled imageBase64)
  /\ (forall dataURL,
        no_comma dataURL = true ->
        encode_frame (Fulfilled dataURL) = Rejected (Error capture_failed))
  /\ (forall e, encode_frame (Rejected e) = Rejected e)
  /\ (forall frame imageBase64,
        encode_frame frame = Fulfilled imageBase64 ->
        imageBase64 <> "" /\ no_comma imageBase64 = true).
Proof.
  split; [|split; [|split; [reflexivity|exact encode_frame_image]]].
  - intros prefix img tail Hp Hi Ht. unfold encode_frame.
    change ("," +:+ img +:+ tail) with (String ","%char (img +:+ tail)).
    rewrite (split_comma_app prefix _ Hp).
    destruct Ht as [->|[rest ->]].
    + rewrite append_empty_r, (split_comma_no_comma img Hi). reflexivity.
    + rewrite (split_comma_app img rest Hi). reflexivity.
  - intros dataURL Hd. unfold encode_frame.
    now rewrite (split_comma_no_comma dataURL Hd).
Qed.

(** X4.  No send ever carries an empty image: every [fetch] in the trace of
    a reachable state is the send described for some request and an image
    that is not empty (and holds no comma); the image is the
    [image_base64] of the body. *)
Theorem X4_no_empty_image_is_sent (s : state) :
  reachable s ->
  forall req,
    Fetch req ∈ trace s ->
    exists r imageBase64 payload,
      req = described_send r imageBase64
      /\ ApiClient.body req = JObj payload
      /\ assoc "image_base64" payload = Some (JStr imageBase64)
      /\ imageBase64 <> "" /\ no_comma imageBase64 = true.
Proof.
  intros (v & events & Hrun).
  apply (run_invariant (fun _ => True)
           (fun s => forall req, Fetch req ∈ trace s ->
              exists r img payload,
                req = described_send r img
                /\ ApiClient.body req = JObj payload
                /\ assoc "image_base64" payload = Some (JStr img)
                /\ img <> "" /\ no_comma img = true))
    with events (init v); auto.
  - intros e sa sb _ IH Hs req Hin.
    destruct (fetch_origin_image e sa sb req Hs Hin)
      as [Hold|(frame & img & Hf & ->)]; auto.
    destruct (request_sent_is_described img sa) as [r ->].
    destruct (encode_frame_image frame img Hf) as [Hne Hnc].
    exists r, img. eexists. split; [reflexivity|].
    split; [reflexivity|]. split; [reflexivity|]. auto.
  - now apply Forall_forall.
  - intros req Hin. inversion Hin.
Qed.

(** X5.  Whatever the event, a message in the error channel is not cleared
    unless the event is a call of [start] that finds the video element, and
    such a call does clear it.  Arming a request leaves the channel alone,
    and so does a send that succeeds: the message of an earlier failure is
    still there after a successful capture. *)
Theorem X5_only_start_clears_the_error (e : event) (s s' : state) :
  step e s = Some s' ->
  (is_Some (error s) -> error s' = None ->
   e = EvStart /\ is_Some (videoRef s))
  /\ (e = EvStart -> is_Some (videoRef s) -> error s' = None)
  /\ (is_arming e -> error s' = error s)
  /\ (forall i reply v,
        e = EvResume i (FetchReply reply) ->
        ApiClient.post_then reply = Fulfilled v -> error s' = error s).
Proof.
  intros Hstep. split; [|split; [|split]].
  - intros [m Hm] Hnone.
    destruct (error_step e s s' Hstep) as [E|[[m' E]|(E1 & E2 & _)]]; auto;
      congruence.
  - intros -> Hv. rewrite step_start_video in Hstep by exact Hv.
    now injection Hstep as <-.
  - intros Ha. destruct e; try (now destruct Ha); simpl in Hstep;
      now injection Hstep as <-.
  - intros i reply v -> Hpost. unfold step in Hstep.
    destruct (tasks s !! i) as [[| | |c]|]; try discriminate.
    rewrite reply_settles, Hpost in Hstep. injection Hstep as <-.
    cbn [spawn].
    match goal with |- context [settle c ?o ?s1] =>
      destruct (settled_fields false c o s1) as (_ & _ & _ & _ & _ & F6 & _)
    end. now rewrite F6.
Qed.

(** X6.  [stop] releases what the handles name.  It is a total function of the
    state; calling it again, any number of times, changes nothing more.  It
    leaves no timer handle and no stream stored: the timer whose handle was
    stored is cleared, the tracks of the stored stream are stopped, the
    video element (when there is one) shows no stream, and the face-detected
    flag is false.  Before [start] has ever run it finds nothing to release.
    It leaves the busy flag, the armed request, the promises and the parked
    continuations alone. *)
Theorem X6_stop_releases_what_is_stored (s : state) :
  stop (stop s) = stop s
  /\ (forall n, Nat.iter (S n) stop s = stop s)
  /\ step EvStop s = Some (stop s)
  /\ faceDetected (stop s) = false
  /\ detectionInterval (stop s) = None
  /\ stream (stop s) = None
  /\ videoRef (stop s) = (fun _ => mkVideo None) <$> videoRef s
  /\ (forall id,
        detectionInterval s = Some id ->
        (id ∉ timers (stop s))
        /\ ClearInterval id ∈ calls_since s (stop s))
  /\ (forall strm,
        stream s = Some strm ->
        (strm ∉ liveStreams (stop s))
        /\ StopTracks strm ∈ calls_since s (stop s))
  /\ (detectionInterval s = None -> timers (stop s) = timers s)
  /\ (stream s = None -> liveStreams (stop s) = liveStreams s)
  /\ (forall v,
        stop (init v) = init ((fun _ => mkVideo None) <$> v))
  /\ isLoading (stop s) = isLoading s
  /\ captureCompleter (stop s) = captureCompleter s
  /\ promises (stop s) = promises s
  /\ tasks (stop s) = tasks s.
Proof.
  destruct (stop_fields s) as (F1 & F2 & F3 & F4 & F5 & F6 & F7).
  destruct (stop_keeps s) as (K1 & K2 & K3 & K4).
  split; [apply stop_stop|]. split.
  { induction n as [|n IH]; [reflexivity|].
    change (stop (Nat.iter (S n) stop s) = stop s).
    rewrite IH. apply stop_stop. }
  split; [reflexivity|]. split; [exact F1|]. split; [exact F2|].
  split; [exact F3|]. split; [exact F4|]. split.
  { intros id Eid. rewrite F5, Eid. split.
    - rewrite list_elem_of_filter. tauto.
    - rewrite (calls_since_app _ _ _ F7), Eid. simpl.
      apply list_elem_of_here. }
  split.
  { intros strm Es. rewrite F6, Es. split.
    - rewrite list_elem_of_filter. tauto.
    - rewrite (calls_since_app _ _ _ F7), Es.
      rewrite elem_of_app, list_elem_of_singleton. auto. }
  split; [intros Eid; now rewrite F5, Eid|].
  split; [intros Es; now rewrite F6, Es|].
  split; [intros [v|]; vm_compute; reflexivity|].
  auto.
Qed.

End useBioLogreen.

(** ** The claims on concrete inputs *)

(** [new Error(detail)] on details that are no strings: a number prints as
    JavaScript prints it, an array joins its elements, and an object with a
    property named [toString] cannot be converted. *)
Example post_detail_number :
  ApiClient.post_then
    (Fulfilled (ApiClient.mkResponse 400
       (Fulfilled (JObj [("detail", JNum (mkNumber true "1e+21"))]))))
  = Rejected (Error "1e+21").
Proof. reflexivity. Qed.

Example post_detail_array :
  ApiClient.post_then
    (Fulfilled (ApiClient.mkResponse 422
       (Fulfilled (JObj [("detail",
          JArr [JStr "image_base64"; JNull; JObj [("msg", JStr "required")]])]))))
  = Rejected (Error "image_base64,,[object Object]").
Proof. reflexivity. Qed.

Example post_detail_unconvertible :
  ApiClient.post_then
    (Fulfilled (ApiClient.mkResponse 400
       (Fulfilled (JObj [("detail", JObj [("toString", JNull)])]))))
  = Rejected (TypeError "Cannot convert object to primitive value").
Proof. reflexivity. Qed.

Lemma C1_witness :
  exists s,
    run demo_options demo_in_flight (init demo_video) = Some s
    /\ isLoading s = true /\ length (sends (tasks s)) = 1%nat
    /\ exists s',
         step demo_options
           (EvResume 1 (DetectReply (Fulfilled 1%nat) demo_frame)) s = Some s'
         /\ faceDetected s' = true /\ trace s' = trace s.
Proof.
  eexists. split; [vm_compute; reflexivity|].
  match goal with |- isLoading ?s = _ /\ _ =>
    assert (Hr : reachable demo_options s)
      by (exists demo_video, demo_in_flight; vm_compute; reflexivity);
    destruct (C1_one_send_in_flight demo_options s Hr)
      as (_ & Hbusy & _ & _ & Htick)
  end.
  split; [reflexivity|]. split; [reflexivity|].
  destruct (Htick 1%nat 1%nat demo_frame) as (s' & Hs & Hf & _ & Ht & _);
    [discriminate|reflexivity|].
  exists s'. auto.
Defined.

Lemma C2_witness :
  exists s s',
    run demo_options (demo_started ++ [EvTick 1]) (init demo_video) = Some s
    /\ run demo_options
         [EvSignup None; EvResume 0 (DetectReply (Fulfilled 1%nat) demo_frame);
          EvResume 0 (FetchReply
                        (Fulfilled (ApiClient.mkResponse 200 (Fulfilled demo_user))))]
         s = Some s'
    /\ promises s' !! 0%nat = Some (Some (Fulfilled demo_user)).
Proof.
  eexists. 
  match goal with |- exists s', ?R = Some ?s /\ _ =>
    assert (Hr : reachable demo_options s)
      by (exists demo_video, (demo_started ++ [EvTick 1]); vm_compute; reflexivity);
    destruct (C2_resolves_with_the_response demo_options s Hr) as (Hchain & _);
    destruct (Hchain (SignupRequest None) 0%nat 1%nat demo_frame
                "/9j/4AAQSkZJRg=="
                (ApiClient.mkResponse 200 (Fulfilled demo_user)) demo_user)
      as (s' & Hrun & Hp);
      [reflexivity|eexists; reflexivity|reflexivity|lia|reflexivity
      |reflexivity|reflexivity|]
  end.
  exists s'. split; [vm_compute; reflexivity|]. split; [exact Hrun|exact Hp].
Defined.

Lemma C3_witness :
  exists s s',
    run demo_options demo_in_flight (init demo_video) = Some s
    /\ step demo_options
         (EvResume 0 (FetchReply
            (Fulfilled (ApiClient.mkResponse 400
               (Fulfilled (JObj [("detail", JStr "duplicate face")])))))) s
       = Some s'
    /\ isLoading s' = false
    /\ promises s' !! 0%nat = Some (Some (Rejected (Error "duplicate face")))
    /\ error s' = Some "duplicate face".
Proof.
  eexists.
  match goal with |- exists s', ?R = Some ?s /\ _ =>
    assert (Hr : reachable demo_options s)
      by (exists demo_video, demo_in_flight; vm_compute; reflexivity);
    destruct (C3_api_error_rejects demo_options s Hr 0%nat 0%nat
                (ApiClient.mkResponse 400
                   (Fulfilled (JObj [("detail", JStr "duplicate face")]))))
      as (s' & Hs & El & _ & Hbody & _); [reflexivity|reflexivity|]
  end.
  destruct (Hbody (JObj [("detail", JStr "duplicate face")]))
    as (_ & _ & Hd & _); [reflexivity|discriminate|].
  destruct (Hd "duplicate face") as [Hp He]; [reflexivity|discriminate|].
  exists s'. split; [vm_compute; reflexivity|]. auto.
Defined.

(** The claim of C3 fails for a non-2xx reply whose body is not JSON, such
    as a proxy's 502 page: the promise is rejected with the parser's error,
    whose message is neither a detail field nor the generic message, and the
    error channel holds the parser's message. *)
Lemma C3_counterexample :
  exists s s',
    run demo_options demo_in_flight (init demo_video) = Some s
    /\ ApiClient.ok (ApiClient.mkResponse 502 (Rejected demo_syntax_error))
       = false
    /\ step demo_options
         (EvResume 0 (FetchReply
            (Fulfilled (ApiClient.mkResponse 502 (Rejected demo_syntax_error)))))
         s = Some s'
    /\ promises s' !! 0%nat = Some (Some (Rejected demo_syntax_error))
    /\ error s' = Some (message demo_syntax_error)
    /\ message demo_syntax_error <> ApiClient.unknown_api_error.
Proof.
  eexists. eexists. split; [vm_compute; reflexivity|].
  split; [reflexivity|]. split; [vm_compute; reflexivity|].
  split; [reflexivity|]. split; [reflexivity|]. discriminate.
Qed.

Lemma C4_witness :
  exists s s1 s2,
    run demo_options (demo_started ++ [EvLogin]) (init demo_video) = Some s
    /\ run demo_options
         [EvTick 1; EvResume 0 (DetectReply (Fulfilled 0%nat) demo_frame)] s
       = Some s1
    /\ faceDetected s1 = false /\ captureCompleter s1 = Some 0%nat
    /\ calls_since s s1 = [DetectAllFaces]
    /\ run demo_options
         [EvTick 1; EvResume 0 (DetectReply (Fulfilled 1%nat) demo_frame)] s1
       = Some s2
    /\ faceDetected s2 = true /\ captureCompleter s2 = None
    /\ isLoading s2 = true
    /\ calls_since s1 s2 = [DetectAllFaces; CapturePhoto; Fetch demo_login_send].
Proof.
  eexists.
  match goal with |- exists s1 s2, _ = Some ?s /\ _ =>
    assert (Hs : run demo_options (demo_started ++ [EvLogin]) (init demo_video)
                 = Some s) by (vm_compute; reflexivity);
    destruct (C4_tick_captures_iff_qualifying demo_options s)
      as (_ & _ & Hrun & _);
    destruct (Hrun 1%positive 0%nat demo_frame)
      as (s1 & H1 & _ & _ & _ & Hno);
      [apply list_elem_of_here|eexists; reflexivity|]
  end.
  destruct (Hno eq_refl) as (Hf1 & Hc1 & Hcalls1 & _ & _).
  assert (Es1 : s1 = ltac:(let t := eval vm_compute in
                 (run demo_options
                    (demo_started ++
                     [EvLogin; EvTick 1;
                      EvResume 0 (DetectReply (Fulfilled 0%nat) demo_frame)])
                    (init demo_video))
               in match t with Some ?x => exact x end)).
  { vm_compute in H1. now injection H1 as <-. }
  subst s1.
  match type of H1 with _ = Some ?s1 =>
    destruct (C4_tick_captures_iff_qualifying demo_options s1)
      as (_ & _ & Hrun1 & _)
  end.
  destruct (Hrun1 1%positive 1%nat demo_frame)
    as (s2 & H2 & Hf2 & _ & Hsend & _);
    [apply list_elem_of_here|eexists; reflexivity|].
  destruct (Hsend "/9j/4AAQSkZJRg==") as (Hcalls2 & Hc2 & Hl2 & _);
    [repeat split; [eexists; reflexivity|lia]|reflexivity|].
  eexists. exists s2. split; [exact Hs|]. split; [exact H1|].
  split; [exact Hf1|]. split; [exact Hc1|]. split; [exact Hcalls1|].
  split; [exact H2|]. split; [exact Hf2|]. split; [exact Hc2|].
  split; [exact Hl2|]. rewrite Hcalls2. reflexivity.
Defined.

(** The claim of C4 fails at a tick that finds no video element (the element
    was unmounted while the timer runs).  A request is armed, the busy flag
    is down and the face-detected flag says a face is there; the tick asks
    nobody, calls nothing and leaves the state as it is.  Whether or not a
    face counts as present at such a tick, the claim is broken: if one
    does, the capture is missing; if none does, the face-detected flag
    should have become false. *)
Lemma C4_counterexample :
  exists s,
    run demo_options demo_unmounted (init demo_video) = Some s
    /\ is_Some (captureCompleter s) /\ isLoading s = false
    /\ faceDetected s = true /\ videoRef s = None
    /\ 1%positive ∈ timers s
    /\ step demo_options (EvTick 1) s = Some s.
Proof.
  eexists. split; [vm_compute; reflexivity|].
  split; [eexists; reflexivity|]. split; [reflexivity|].
  split; [reflexivity|]. split; [reflexivity|].
  split; [apply list_elem_of_here|]. vm_compute. reflexivity.
Qed.

Lemma C5_witness :
  exists s s2 s',
    run demo_options demo_armed (init demo_video) = Some s
    /\ captureCompleter s = Some 0%nat
    /\ step demo_options (EvSignup (Some (Some [("plan", JStr "pro")]))) s
       = Some s2
    /\ captureCompleter s2 = Some 1%nat
    /\ run demo_options
         [EvResume 0 (DetectReply (Fulfilled 1%nat) demo_frame);
          EvResume 0 (FetchReply
                        (Fulfilled (ApiClient.mkResponse 200 (Fulfilled demo_user))))]
         s2 = Some s'
    /\ promises s' !! 0%nat = Some None
    /\ promises s' !! 1%nat = Some (Some (Fulfilled demo_user)).
Proof.
  eexists. eexists. eexists.
  split; [vm_compute; reflexivity|].
  match goal with |- captureCompleter ?s = _ /\ _ =>
    assert (Hr : reachable demo_options s)
      by (exists demo_video, demo_armed; vm_compute; reflexivity);
    destruct (C5_second_arming_replaces_first demo_options s 0%nat
                (SignupRequest (Some (Some [("plan", JStr "pro")]))) Hr
                eq_refl)
      as (_ & _ & Hstep & _ & Hc2 & _ & _ & _ & Hpending)
  end.
  split; [reflexivity|]. split; [exact Hstep|]. split; [exact Hc2|].
  split; [vm_compute; reflexivity|].
  split; [|reflexivity].
  apply (Hpending
           [EvResume 0 (DetectReply (Fulfilled 1%nat) demo_frame);
            EvResume 0 (FetchReply
              (Fulfilled (ApiClient.mkResponse 200 (Fulfilled demo_user))))]).
  vm_compute. reflexivity.
Defined.

Lemma C6_witness :
  exists s s',
    run demo_options (demo_started ++ [EvTick 1]) (init demo_video) = Some s
    /\ run demo_options
         [EvSignup (Some (Some [("plan", JStr "pro")]));
          EvResume 0 (DetectReply (Fulfilled 1%nat) demo_frame)] s = Some s'
    /\ calls_since s s' =
       [CapturePhoto;
        Fetch
          {| ApiClient.url := "http://localhost:8000/v1/auth/signup-face";
             ApiClient.method := "POST";
             ApiClient.headers :=
               [("Content-Type", "application/json");
                ("X-API-KEY", "pk_demo")];
             ApiClient.body :=
               JObj [("image_base64", JStr "/9j/4AAQSkZJRg==");
                     ("custom_fields", JObj [("plan", JStr "pro")])] |}].
Proof.
  eexists.
  match goal with |- exists s', ?R = Some ?s /\ _ =>
    assert (Hr : reachable demo_options s)
      by (exists demo_video, (demo_started ++ [EvTick 1]);
          vm_compute; reflexivity);
    destruct (C6_sends_are_as_described demo_options s Hr) as (_ & Hsend & _);
    destruct (Hsend (SignupRequest (Some (Some [("plan", JStr "pro")])))
                0%nat 1%nat demo_frame "/9j/4AAQSkZJRg==")
      as (s' & Hrun & Hcalls);
      [reflexivity|eexists; reflexivity|reflexivity|lia|reflexivity|]
  end.
  exists s'. split; [vm_compute; reflexivity|].
  split; [exact Hrun|exact Hcalls].
Defined.

Lemma C7_witness :
  exists s s' s'',
    run demo_options demo_in_flight (init demo_video) = Some s
    /\ step demo_options
         (EvResume 0 (FetchReply (Rejected (TypeError "Failed to fetch")))) s
       = Some s'
    /\ isLoading s' = false
    /\ run demo_options
         [EvLogin; EvResume 0 (DetectReply (Fulfilled 1%nat) demo_frame)] s'
       = Some s''
    /\ isLoading s'' = true /\ sends (tasks s'') = [1%nat].
Proof.
  eexists.
  match goal with |- exists s' s'', ?R = Some ?s /\ _ =>
    assert (Hr : reachable demo_options s)
      by (exists demo_video, demo_in_flight; vm_compute; reflexivity);
    destruct (C7_busy_flag_cleared demo_options s Hr) as (_ & _ & _ & Hreply);
    destruct (Hreply 0%nat 0%nat (Rejected (TypeError "Failed to fetch")))
      as (s' & Hs & El & _ & _ & Hready); [reflexivity|]
  end.
  assert (Es : s' = ltac:(let t := eval vm_compute in
                 (step demo_options
                    (EvResume 0 (FetchReply (Rejected (TypeError "Failed to fetch"))))
                    (default (init None) (run demo_options demo_in_flight (init demo_video))))
               in match t with Some ?x => exact x end)).
  { vm_compute in Hs. now injection Hs as <-. }
  destruct (Hready LoginRequest 0%nat 1%nat demo_frame "/9j/4AAQSkZJRg==")
    as (s'' & Hrun & _ & El'' & Hsends);
    [subst s'; reflexivity|subst s'; eexists; reflexivity|lia|reflexivity|].
  exists s', s''. split; [vm_compute; reflexivity|].
  split; [exact Hs|]. split; [exact El|]. split; [exact Hrun|].
  split; [exact El''|]. rewrite Hsends. subst s'. reflexivity.
Defined.

Lemma C8_witness :
  exists s s',
    run demo_options
      [EvStart; EvLogin; EvResume 0 (ModelsReply (Fulfilled tt)); EvStop]
      (init demo_video) = Some s
    /\ isInitializing s = true
    /\ step demo_options (EvResume 0 (MediaReply (Rejected demo_not_allowed))) s
       = Some s'
    /\ isInitializing s' = false
    /\ error s' = Some "Failed to start camera: Permission denied"
    /\ timers s' = [].
Proof.
  destruct (C8_start_failure_is_reported demo_options)
    as (_ & _ & _ & _ & _ & _ & Hrefused & _ & _ & _ & _ & _ & Hflag).
  eexists. eexists.
  match goal with |- ?R = Some ?s /\ _ =>
    assert (Hs : R = Some s) by (vm_compute; reflexivity)
  end.
  split; [exact Hs|].
  assert (Hone : one_start_at_a_time demo_options
                   [EvStart; EvLogin; EvResume 0 (ModelsReply (Fulfilled tt));
                    EvStop] (init demo_video)).
  { vm_compute. repeat split; intros; try discriminate; reflexivity. }
  pose proof (Hflag demo_video _ _ Hone Hs) as Hup.
  split; [match goal with |- isInitializing ?s = true =>
            destruct (isInitializing s); [reflexivity|discriminate Hup]
          end|].
  split; [apply Hrefused; reflexivity|].
  split; [reflexivity|]. split; [reflexivity|]. reflexivity.
Defined.

(** The claim of C8 fails for a [start()] that fails while the detection an
    earlier, successful [start()] began is running: the failure is reported
    and the flag is down, but the poll timer keeps running and its ticks
    still ask the detector. *)
Lemma C8_counterexample :
  exists s s',
    run demo_options
      (demo_started ++ [EvStart; EvResume 0 (ModelsReply (Rejected (Error "404")))])
      (init demo_video) = Some s
    /\ is_Some (error s) /\ isInitializing s = false
    /\ timers s = [1%positive]
    /\ step demo_options (EvTick 1) s = Some s'
    /\ calls_since s s' = [DetectAllFaces].
Proof.
  eexists. eexists. split; [vm_compute; reflexivity|].
  split; [eexists; reflexivity|]. split; [reflexivity|].
  split; [reflexivity|]. split; [vm_compute; reflexivity|]. reflexivity.
Qed.

(** C9 (defect).  [start(); start(); stop(); stop()] with both camera
    requests granted.  [stop] releases what the second [start] stored, timer
    2 and stream 8, and finds nothing more the second time; no handle is
    left, the element shows no stream and the face-detected flag is false.
    But timer 1 keeps running and stream 7 stays live, and nothing names
    them any more: a later tick of timer 1 still asks the detector, sets
    the face-detected flag and, with a request armed, posts a frame. *)
Theorem C9_stop_leaves_first_start_running :
  exists s s',
    run demo_options
      (demo_started ++ demo_started_again ++ [EvStop; EvStop])
      (init demo_video) = Some s
    /\ detectionInterval s = None /\ stream s = None
    /\ videoRef s = Some (mkVideo None) /\ faceDetected s = false
    /\ stop s = s
    /\ timers s = [1%positive] /\ liveStreams s = [7%nat]
    /\ run demo_options
         [EvLogin; EvTick 1;
          EvResume 0 (DetectReply (Fulfilled 1%nat) demo_frame)] s = Some s'
    /\ calls_since s s' = [DetectAllFaces; CapturePhoto; Fetch demo_login_send]
    /\ faceDetected s' = true.
Proof.
  eexists. eexists. split; [vm_compute; reflexivity|].
  split; [reflexivity|]. split; [reflexivity|]. split; [reflexivity|].
  split; [reflexivity|]. split; [vm_compute; reflexivity|].
  split; [reflexivity|]. split; [reflexivity|].
  split; [vm_compute; reflexivity|]. split; [vm_compute; reflexivity|].
  reflexivity.
Qed.

Lemma C10_witness :
  step demo_options EvStart (init None) =
  Some (set_error (Some "Video element reference is not available.")
          (init None))
  /\ isInitializing
       (set_error (Some "Video element reference is not available.")
          (init None)) = false.
Proof.
  split; [|reflexivity].
  apply (C10_start_without_video demo_options (init None)). reflexivity.
Defined.

(** ** The further properties on concrete inputs *)

Lemma X2_witness :
  exists s s',
    run demo_options demo_in_flight (init demo_video) = Some s
    /\ step demo_options
         (EvResume 0 (FetchReply
            (Fulfilled (ApiClient.mkResponse 200 (Rejected demo_syntax_error)))))
         s = Some s'
    /\ promises s' !! 0%nat = Some (Some (Rejected demo_syntax_error))
    /\ error s' = Some "Unexpected token < in JSON at position 0".
Proof.
  eexists.
  match goal with |- exists s', ?R = Some ?s /\ _ =>
    assert (Hr : reachable demo_options s)
      by (exists demo_video, demo_in_flight; vm_compute; reflexivity);
    destruct (X2_failed_send_is_reported demo_options s Hr) as (Hfail & _);
    destruct (Hfail 0%nat 0%nat
                (Fulfilled (ApiClient.mkResponse 200 (Rejected demo_syntax_error)))
                demo_syntax_error)
      as (s' & Hs & Hp & _ & He); [reflexivity|reflexivity|]
  end.
  exists s'. split; [vm_compute; reflexivity|]. auto.
Defined.

Lemma X4_witness :
  exists s,
    run demo_options demo_in_flight (init demo_video) = Some s
    /\ exists r imageBase64,
         ApiClient.loginWithFaceApi "pk_demo" "http://localhost:8000/v1"
           "/9j/4AAQSkZJRg=="
         = described_send demo_options r imageBase64
         /\ imageBase64 <> "".
Proof.
  eexists. split; [vm_compute; reflexivity|].
  match goal with |- context [described_send] =>
    destruct (X4_no_empty_image_is_sent demo_options
                ltac:(let t := eval vm_compute in
                        (run demo_options demo_in_flight (init demo_video)) in
                      match t with Some ?x => exact x end)
                ltac:(exists demo_video, demo_in_flight;
                      vm_compute; reflexivity)
                (ApiClient.loginWithFaceApi "pk_demo"
                   "http://localhost:8000/v1" "/9j/4AAQSkZJRg=="))
      as (r & img & payload & Hreq & _ & _ & Hne & _)
  end.
  - simpl. repeat first [apply list_elem_of_here | apply list_elem_of_further].
  - exists r, img. auto.
Defined.

Lemma X5_witness :
  exists s s',
    run demo_options
      (demo_in_flight ++
       [EvResume 0 (FetchReply (Rejected (TypeError "Failed to fetch")));
        EvLogin; EvResume 0 (DetectReply (Fulfilled 1%nat) demo_frame)])
      (init demo_video) = Some s
    /\ error s = Some "Failed to fetch"
    /\ step demo_options
         (EvResume 0 (FetchReply
            (Fulfilled (ApiClient.mkResponse 200 (Fulfilled demo_user))))) s
       = Some s'
    /\ promises s' !! 1%nat = Some (Some (Fulfilled demo_user))
    /\ error s' = Some "Failed to fetch".
Proof.
  eexists. eexists. split; [vm_compute; reflexivity|].
  split; [reflexivity|].
  match goal with |- ?St = Some ?s' /\ _ =>
    assert (Hs : St = Some s') by (vm_compute; reflexivity);
    destruct (X5_only_start_clears_the_error demo_options _ _ _ Hs)
      as (_ & _ & _ & Hkeep)
  end.
  split; [exact Hs|]. split; [reflexivity|].
  rewrite (Hkeep 0%nat _ demo_user eq_refl eq_refl). reflexivity.
Defined.
